(** * Loan-eligibility engine: the CSV ingestion pipeline

    A shallow embedding of [src/lambda/csv_processor.py],
    [src/lambda/db_utils.py] and [src/lambda/process_csv.py].

    - Python exceptions are the [Raise] case of [result]; [try]/[except]
      is a match on it.
    - The conversions of the Python runtime on text ([float], [int],
      [str.strip], [csv.DictReader], [urllib.parse.unquote_plus]) are the
      fields of the class [Builtins]: the program is embedded over any
      implementation of them, and [Plain] gives one for plain ASCII text
      on which the embedding can be run.
    - The collaborators of a run (the object store, the faults of the
      relational store, its clock, the webhook) are the fields of [Env].
    - The relational store is PostgreSQL, reached through psycopg2: a
      statement that fails inside a transaction leaves the transaction
      aborted, every later statement of that transaction fails, and
      committing an aborted transaction rolls it back.  Connecting to the
      store succeeds; a statement on [users] fails when [Env] says so.
      The module [Outage] has the functions that reach the store once
      more, with a store that can also refuse a connection, a statement on
      [csv_uploads] and a commit.
    - Logging is not embedded.  The world keeps the list of the calls a run
      makes to its collaborators ([calls]). *)

From Stdlib Require Import ZArith QArith Lia String Ascii List DecimalString.
From stdpp Require Import base option list strings gmap.
From stdpp Require Import sorting.

Local Open Scope Z_scope.

(* ===================================================================== *)
(** ** Exceptions and results *)

Inductive exn : Type :=
| ValueError (msg : string)
| TypeError (msg : string)
| AttributeError (msg : string)
| IndexError (msg : string)
| DatabaseError (msg : string)      (* psycopg2.Error *)
| ExternalError (msg : string).     (* raised by boto3, csv, requests *)

(** [str(e)] *)
Definition str_exn (e : exn) : string :=
  match e with
  | ValueError m | TypeError m | AttributeError m
  | IndexError m | DatabaseError m | ExternalError m => m
  end.

Inductive result (A : Type) : Type :=
| Return (a : A)
| Raise (e : exn).
Arguments Return {A} a.
Arguments Raise {A} e.

#[global] Instance result_ret : MRet result := fun A a => Return a.
#[global] Instance result_bind : MBind result := fun A B f m =>
  match m with
  | Return a => f a
  | Raise e => Raise e
  end.

(* ===================================================================== *)
(** ** Values read from a row, and the runtime's conversions *)

(** What [row.get(key, default)] can give: a cell of the row (text, or
    [None] where [csv.DictReader] filled a short row with its [restval]),
    or the default, which the code takes to be [''] or [0]. *)
Inductive value : Type :=
| VStr (s : string)
| VNone
| VInt (n : Z).

(** A row of [csv.DictReader]: field name to text, or to [None]. *)
Abbreviation Row := (gmap string (option string)).

Class Builtins : Type := {
  pyfloat : Type;
  float_of_str : string -> result pyfloat;   (* float(s), s a str *)
  float_of_int : Z -> pyfloat;               (* float(n), n an int *)
  float_lt_zero : pyfloat -> bool;           (* x < 0 *)
  int_of_str : string -> result Z;           (* int(s), s a str *)
  strip : string -> string;                  (* s.strip() *)
  DictReader : string -> result (list Row);  (* list(csv.DictReader(StringIO(s))) *)
  unquote_plus : string -> string            (* urllib.parse.unquote_plus *)
}.

(** [row.get(key, default)] *)
Definition get (row : Row) (key : string) (default : value) : value :=
  match row !! key with
  | Some (Some s) => VStr s
  | Some None => VNone
  | None => default
  end.

(** ['@' in s] *)
Fixpoint has_at (s : string) : bool :=
  match s with
  | EmptyString => false
  | String c s' => Ascii.eqb c "@" || has_at s'
  end.

(** truth value of a [str] *)
Definition nonempty (s : string) : bool :=
  match s with
  | EmptyString => false
  | String _ _ => true
  end.

(** [str(n)] for an [int] *)
Definition str_of_Z (n : Z) : string := NilZero.string_of_int (Z.to_int n).

(** [str(n)] for a count *)
Definition str_of_nat (n : nat) : string := NilZero.string_of_uint (Nat.to_uint n).

(** [sep.join(parts)] *)
Fixpoint join (sep : string) (parts : list string) : string :=
  match parts with
  | [] => ""
  | [p] => p
  | p :: rest => p +:+ sep +:+ join sep rest
  end.

(** [needle in hay] for text *)
Fixpoint is_prefix (p s : string) : bool :=
  match p, s with
  | EmptyString, _ => true
  | String a p', String b s' => Ascii.eqb a b && is_prefix p' s'
  | String _ _, EmptyString => false
  end.

Fixpoint contains (needle hay : string) : bool :=
  is_prefix needle hay ||
  match hay with
  | EmptyString => false
  | String _ hay' => contains needle hay'
  end.

(** [os.path.basename]: what follows the last ['/'] *)
Fixpoint basename_aux (s acc : string) : string :=
  match s with
  | EmptyString => acc
  | String c s' => if Ascii.eqb c "/" then basename_aux s' s' else basename_aux s' acc
  end.

Definition basename (path : string) : string := basename_aux path path.

(* ===================================================================== *)
(** ** RecordValidator: [validate_user_data] *)

Section Validator.
Context `{B : Builtins}.

Record UserRecord : Type := {
  email : string;
  monthly_income : pyfloat;
  credit_score : Z;
  employment_status : string;
  age : Z
}.

(** [v.strip()] *)
Definition str_strip (v : value) : result string :=
  match v with
  | VStr s => Return (strip s)
  | VNone => Raise (AttributeError "'NoneType' object has no attribute 'strip'")
  | VInt _ => Raise (AttributeError "'int' object has no attribute 'strip'")
  end.

(** [int(v)] *)
Definition py_int (v : value) : result Z :=
  match v with
  | VStr s => int_of_str s
  | VInt n => Return n
  | VNone => Raise (TypeError "int() argument must be a string, a bytes-like object or a real number, not 'NoneType'")
  end.

(** [float(v)] *)
Definition py_float (v : value) : result pyfloat :=
  match v with
  | VStr s => float_of_str s
  | VInt n => Return (float_of_int n)
  | VNone => Raise (TypeError "float() argument must be a string or a real number, not 'NoneType'")
  end.

(** The body of the [try] of [validate_user_data]. *)
Definition validate_body (row : Row) : result UserRecord :=
  email ← str_strip (get row "email" (VStr ""));
  if negb (nonempty email) || negb (has_at email) then
    Raise (ValueError "Invalid email")
  else
  monthly_income ← py_float (get row "monthly_income" (VInt 0));
  credit_score ← py_int (get row "credit_score" (VInt 0));
  age ← py_int (get row "age" (VInt 0));
  if (credit_score <? 300) || (credit_score >? 850) then
    Raise (ValueError ("Credit score " +:+ str_of_Z credit_score +:+ " out of range (300-850)"))
  else if (age <? 18) || (age >? 100) then
    Raise (ValueError ("Age " +:+ str_of_Z age +:+ " out of range (18-100)"))
  else if float_lt_zero monthly_income then
    Raise (ValueError "Monthly income cannot be negative")
  else
  employment_status ← str_strip (get row "employment_status" (VStr ""));
  Return {| email := email;
            monthly_income := monthly_income;
            credit_score := credit_score;
            employment_status := employment_status;
            age := age |}.

(** [validate_user_data]: the record, or [None] when the body raised. *)
Definition validate_user_data (row : Row) : option UserRecord :=
  match validate_body row with
  | Return user => Some user
  | Raise _ => None
  end.

End Validator.

(* ===================================================================== *)
(** ** The relational store: tables [users] and [csv_uploads] *)

Section Pipeline.
Context `{B : Builtins}.

(** A row of [users].  A text column holds [None] for SQL NULL and for a
    column that the inserting statement leaves to the table's default. *)
Record UserRow : Type := {
  row_user_id : option string;
  row_name : option string;
  row_email : string;
  row_monthly_income : pyfloat;
  row_credit_score : Z;
  row_employment_status : option string;
  row_age : Z;
  created_at : Z;
  updated_at : Z
}.

(** A row of [csv_uploads]. *)
Record UploadRow : Type := {
  upload_id : Z;
  file_name : string;
  s3_key : string;
  status : string;
  total_records : option nat;
  processed_records : option nat;
  failed_records : option nat;
  error_message : option string;
  upload_created_at : Z;
  processed_at : option Z
}.

(** The parameters that [lambda_handler] of [process_csv.py] binds to its
    [INSERT]. *)
Record LegacyParams : Type := {
  lp_user_id : value;
  lp_name : value;
  lp_email : value;
  lp_monthly_income : pyfloat;
  lp_credit_score : Z;
  lp_employment_status : value;
  lp_age : Z
}.

(** A text parameter as the store receives it. *)
Definition sql_text (v : value) : option string :=
  match v with
  | VStr s => Some s
  | VNone => None
  | VInt n => Some (str_of_Z n)
  end.

(** Modelled from the spec: the table declarations ([schema.sql]) are not
    among the sources.  [users.email] is the unique natural key; a row that
    an [INSERT] creates takes the transaction's [CURRENT_TIMESTAMP] for
    [created_at] and [updated_at]. *)
Definition new_row (now : Z) (user : UserRecord) : UserRow :=
  {| row_user_id := None;
     row_name := None;
     row_email := email user;
     row_monthly_income := monthly_income user;
     row_credit_score := credit_score user;
     row_employment_status := Some (employment_status user);
     row_age := age user;
     created_at := now;
     updated_at := now |}.

(** [DO UPDATE SET monthly_income = EXCLUDED.monthly_income, ...,
    updated_at = CURRENT_TIMESTAMP] on the conflicting row. *)
Definition overwrite (now : Z) (user : UserRecord) (r : UserRow) : UserRow :=
  {| row_user_id := row_user_id r;
     row_name := row_name r;
     row_email := row_email r;
     row_monthly_income := monthly_income user;
     row_credit_score := credit_score user;
     row_employment_status := Some (employment_status user);
     row_age := age user;
     created_at := created_at r;
     updated_at := now |}.

(** [INSERT INTO users (email, ...) VALUES (...) ON CONFLICT (email) DO
    UPDATE SET ...], when the store accepts the statement. *)
Fixpoint upsert (now : Z) (user : UserRecord) (table : list UserRow) : list UserRow :=
  match table with
  | [] => [new_row now user]
  | r :: rest =>
      if decide (row_email r = email user)
      then overwrite now user r :: rest
      else r :: upsert now user rest
  end.

Definition legacy_row (now : Z) (e : string) (p : LegacyParams) : UserRow :=
  {| row_user_id := sql_text (lp_user_id p);
     row_name := sql_text (lp_name p);
     row_email := e;
     row_monthly_income := lp_monthly_income p;
     row_credit_score := lp_credit_score p;
     row_employment_status := sql_text (lp_employment_status p);
     row_age := lp_age p;
     created_at := now;
     updated_at := now |}.

Definition has_email (e : string) (table : list UserRow) : bool :=
  existsb (fun r => bool_decide (row_email r = e)) table.

(** [INSERT INTO users (user_id, name, email, ...) VALUES (...) ON CONFLICT
    (email) DO NOTHING], when the store accepts the statement: the new
    table and [cursor.rowcount]. *)
Definition insert_do_nothing (now : Z) (e : string) (p : LegacyParams)
    (table : list UserRow) : list UserRow * nat :=
  if has_email e table then (table, 0%nat)
  else (table ++ [legacy_row now e p], 1%nat).

(* ===================================================================== *)
(** ** The world of a run *)

(** The calls a run makes, in order. *)
Inductive call : Type :=
| CGetObject (bucket key : string)       (* s3_client.get_object *)
| CValidate (row : Row)                  (* validate_user_data *)
| CInsertUsersBatch (n : nat)            (* insert_users_batch, n records *)
| CExecute (e : string)                  (* cursor.execute of the upsert of a batch *)
| CExecuteLegacy (e : value)             (* cursor.execute of lambda_handler's INSERT *)
| CTrigger (bucket key : string)         (* trigger_matching_workflow *)
| CPost (url : string).                  (* requests.post *)

Record World : Type := {
  users : list UserRow;
  csv_uploads : list UploadRow;
  next_upload_id : Z;
  txns : nat;                 (* transactions opened so far *)
  calls : list call
}.

(** The collaborators of a run. *)
Record Env : Type := {
  (* s3_client.get_object(Bucket, Key)['Body'].read().decode('utf-8') *)
  get_object : string -> string -> result string;
  (* the store's refusal of the i-th upsert of a batch, with its message *)
  store_fault : nat -> UserRecord -> option string;
  (* the same for the i-th INSERT of lambda_handler *)
  legacy_fault : nat -> LegacyParams -> option string;
  (* CURRENT_TIMESTAMP of the n-th transaction *)
  CURRENT_TIMESTAMP : nat -> Z;
  (* os.environ.get('N8N_WEBHOOK_URL') *)
  N8N_WEBHOOK_URL : option string;
  (* requests.post(url, json=payload, timeout=10).status_code *)
  requests_post : string -> result Z
}.

Definition M (A : Type) : Type := World -> result A * World.

#[local] Instance M_ret : MRet M := fun A a w => (Return a, w).
#[local] Instance M_bind : MBind M := fun A C f m w =>
  match m w with
  | (Return a, w') => f a w'
  | (Raise e, w') => (Raise e, w')
  end.

Definition raise {A : Type} (e : exn) : M A := fun w => (Raise e, w).

(** [try: m except Exception as e: h e] *)
Definition try_except {A : Type} (m : M A) (h : exn -> M A) : M A := fun w =>
  match m w with
  | (Return a, w') => (Return a, w')
  | (Raise e, w') => h e w'
  end.

Definition log (c : call) : M unit := fun w =>
  (Return tt,
   {| users := users w; csv_uploads := csv_uploads w;
      next_upload_id := next_upload_id w; txns := txns w;
      calls := calls w ++ [c] |}).

Definition log_all (cs : list call) : M unit := fun w =>
  (Return tt,
   {| users := users w; csv_uploads := csv_uploads w;
      next_upload_id := next_upload_id w; txns := txns w;
      calls := calls w ++ cs |}).

(* ===================================================================== *)
(** ** Transactions: [get_db_cursor] *)

(** An open transaction: the tables as the transaction sees them, whether
    a statement has failed in it, and its [CURRENT_TIMESTAMP]. *)
Record Txn : Type := {
  working : World;
  aborted : bool;
  now : Z
}.

Definition Cur (A : Type) : Type := Txn -> result A * Txn.

#[local] Instance Cur_ret : MRet Cur := fun A a t => (Return a, t).
#[local] Instance Cur_bind : MBind Cur := fun A C f m t =>
  match m t with
  | (Return a, t') => f a t'
  | (Raise e, t') => (Raise e, t')
  end.

Definition in_failed_sql_transaction : string :=
  "current transaction is aborted, commands ignored until end of transaction block".

Variable E : Env.

(** [conn = get_db_connection(); cursor = conn.cursor()] *)
Definition begin (w : World) : Txn :=
  {| working := {| users := users w; csv_uploads := csv_uploads w;
                   next_upload_id := next_upload_id w;
                   txns := S (txns w); calls := calls w |};
     aborted := false;
     now := CURRENT_TIMESTAMP E (txns w) |}.

(** [conn.rollback()]: the tables of [w], the world before the
    transaction, stand; the calls made and the sequence stay. *)
Definition rollback (w : World) (t : Txn) : World :=
  {| users := users w; csv_uploads := csv_uploads w;
     next_upload_id := next_upload_id (working t);
     txns := txns (working t); calls := calls (working t) |}.

(** [conn.commit()]: PostgreSQL ends an aborted transaction by a rollback. *)
Definition commit (w : World) (t : Txn) : World :=
  if aborted t then rollback w t else working t.

(** [with get_db_cursor() as cursor: body] *)
Definition get_db_cursor {A : Type} (body : Cur A) : M A := fun w =>
  match body (begin w) with
  | (Return a, t) => (Return a, commit w t)
  | (Raise e, t) => (Raise e, rollback w t)
  end.

Definition tx_log (c : call) (t : Txn) : Txn :=
  {| working := (log c (working t)).2; aborted := aborted t; now := now t |}.

Definition tx_abort (t : Txn) : Txn :=
  {| working := working t; aborted := true; now := now t |}.

Definition tx_set_users (table : list UserRow) (t : Txn) : Txn :=
  {| working := {| users := table; csv_uploads := csv_uploads (working t);
                   next_upload_id := next_upload_id (working t);
                   txns := txns (working t); calls := calls (working t) |};
     aborted := aborted t; now := now t |}.

Definition tx_set_uploads (table : list UploadRow) (next : Z) (t : Txn) : Txn :=
  {| working := {| users := users (working t); csv_uploads := table;
                   next_upload_id := next;
                   txns := txns (working t); calls := calls (working t) |};
     aborted := aborted t; now := now t |}.

(* ===================================================================== *)
(** ** BatchUpserter: [insert_users_batch] ([db_utils.py]) *)

(** [cursor.execute("INSERT INTO users ... ON CONFLICT (email) DO UPDATE
    ...", user)] for the [i]-th record of a batch. *)
Definition execute_upsert (i : nat) (user : UserRecord) : Cur unit := fun t =>
  let t := tx_log (CExecute (email user)) t in
  if aborted t then (Raise (DatabaseError in_failed_sql_transaction), t)
  else match store_fault E i user with
       | Some msg => (Raise (DatabaseError msg), tx_abort t)
       | None => (Return tt, tx_set_users (upsert (now t) user (users (working t))) t)
       end.

(** The [for user in users_data] loop, from the [i]-th record on. *)
Fixpoint insert_loop (i : nat) (users_data : list UserRecord)
    (success_count failed_count : nat) (errors : list string)
    : Cur (nat * nat * list string) := fun t =>
  match users_data with
  | [] => (Return (success_count, failed_count, errors), t)
  | user :: rest =>
      match execute_upsert i user t with
      | (Return _, t') =>
          insert_loop (S i) rest (S success_count) failed_count errors t'
      | (Raise e, t') =>
          insert_loop (S i) rest success_count (S failed_count)
            (errors ++ ["Failed to insert user " +:+ email user +:+ ": " +:+ str_exn e]) t'
      end
  end.

Definition insert_users_batch (users_data : list UserRecord)
    : M (nat * nat * list string) :=
  log (CInsertUsersBatch (length users_data));;
  get_db_cursor (insert_loop 0 users_data 0 0 []).

(* ===================================================================== *)
(** ** UploadLifecycleTracker ([db_utils.py]) *)

Definition is_terminal (status : string) : bool :=
  bool_decide (status = "completed") || bool_decide (status = "failed").

(** The [SET] list that [update_csv_upload_status] builds, on one row. *)
Definition set_fields (now : Z) (status : string)
    (total processed failed : option nat) (error : option string)
    (r : UploadRow) : UploadRow :=
  {| upload_id := upload_id r;
     file_name := file_name r;
     s3_key := s3_key r;
     status := status;
     total_records := match total with Some n => Some n | None => total_records r end;
     processed_records := match processed with Some n => Some n | None => processed_records r end;
     failed_records := match failed with Some n => Some n | None => failed_records r end;
     error_message := match error with Some m => Some m | None => error_message r end;
     upload_created_at := upload_created_at r;
     processed_at := if is_terminal status then Some now else processed_at r |}.

(** [UPDATE csv_uploads SET ... WHERE upload_id = %s] *)
Definition update_where (id : Z) (f : UploadRow -> UploadRow)
    (table : list UploadRow) : list UploadRow :=
  map (fun r => if decide (upload_id r = id) then f r else r) table.

Definition update_csv_upload_status (id : Z) (status : string)
    (total processed failed : option nat) (error : option string) : M unit :=
  get_db_cursor (fun t =>
    (Return tt,
     tx_set_uploads
       (update_where id (set_fields (now t) status total processed failed error)
          (csv_uploads (working t)))
       (next_upload_id (working t)) t)).

(** Modelled from the spec: the table declarations ([schema.sql]) are not
    among the sources.  A new batch has no counts, no error summary and no
    processed timestamp, and [upload_id] is drawn from a sequence. *)
Definition pending_upload (id : Z) (now : Z) (name key : string) : UploadRow :=
  {| upload_id := id;
     file_name := name;
     s3_key := key;
     status := "pending";
     total_records := None;
     processed_records := None;
     failed_records := None;
     error_message := None;
     upload_created_at := now;
     processed_at := None |}.

(** [INSERT INTO csv_uploads (file_name, s3_key, status) VALUES (%s, %s,
    'pending') RETURNING upload_id] *)
Definition create_csv_upload_record (name key : string) : M Z :=
  get_db_cursor (fun t =>
    let id := next_upload_id (working t) in
    (Return id,
     tx_set_uploads
       (csv_uploads (working t) ++ [pending_upload id (now t) name key])
       (id + 1) t)).

(* ===================================================================== *)
(** ** IngestionOrchestrator: [process_csv_file] ([csv_processor.py]) *)

Definition invalid_data (total_records : nat) : string :=
  "Row " +:+ str_of_nat total_records +:+ ": Invalid data".

(** The state of the [for row in csv_reader] loop. *)
Record Scan : Type := {
  users_data : list UserRecord;
  scan_total : nat;
  invalid_records : nat;
  scan_errors : list string
}.

Definition scan_row (st : Scan) (row : Row) : Scan :=
  let total := S (scan_total st) in
  match validate_user_data row with
  | Some validated_data =>
      {| users_data := users_data st ++ [validated_data];
         scan_total := total;
         invalid_records := invalid_records st;
         scan_errors := scan_errors st |}
  | None =>
      {| users_data := users_data st;
         scan_total := total;
         invalid_records := S (invalid_records st);
         scan_errors := scan_errors st ++ [invalid_data total] |}
  end.

Definition scan_rows (rows : list Row) : Scan :=
  fold_left scan_row rows
    {| users_data := []; scan_total := 0; invalid_records := 0; scan_errors := [] |}.

(** [s3_client.get_object(...)['Body'].read().decode('utf-8')], re-raised *)
Definition download (bucket key : string) : M string :=
  log (CGetObject bucket key);;
  match get_object E bucket key with
  | Return csv_content => mret csv_content
  | Raise e => raise e
  end.

(** [csv.DictReader] reads the rows while the loop runs; the loop has no
    effect but on its own variables, so the rows are taken at once.  When
    the reader raises, the rows that it has given before are validated in
    the source and are not in the trace here; the error leaves the loop
    before [insert_users_batch] either way. *)
Definition read_rows (csv_content : string) : M (list Row) :=
  match DictReader csv_content with
  | Return rows => mret rows
  | Raise e => raise e
  end.

(** The result is [(total_records, processed_records, failed_records,
    errors)]. *)
Definition process_csv_file (bucket key : string)
    : M (nat * nat * nat * list string) :=
  csv_content ← download bucket key;
  rows ← read_rows csv_content;
  log_all (map CValidate rows);;
  let st := scan_rows rows in
  match users_data st with
  | _ :: _ =>
      '(success_count, failed_count, db_errors) ← insert_users_batch (users_data st);
      mret (scan_total st, success_count,
            (invalid_records st + failed_count)%nat,
            scan_errors st ++ db_errors)
  | [] =>
      mret (scan_total st, 0%nat, scan_total st, scan_errors st)
  end.

(* ===================================================================== *)
(** ** WebhookNotifier: [trigger_matching_workflow] *)

Definition trigger_matching_workflow (bucket key : string) : M unit :=
  log (CTrigger bucket key);;
  match N8N_WEBHOOK_URL E with
  | None => mret tt
  | Some webhook_url =>
      if negb (nonempty webhook_url) then mret tt
      else
        log (CPost webhook_url);;
        match requests_post E webhook_url with
        | Return status_code => mret tt     (* 200 or not: a log line *)
        | Raise e => mret tt                (* "Don't raise - this is non-critical" *)
        end
  end.

(* ===================================================================== *)
(** ** The Lambda entry point: [handler] *)

Inductive Body : Type :=
| Processed (id : Z) (total processed failed : nat)   (* 'CSV processed successfully' *)
| Failed (error : string).                            (* 'Failed to process CSV' *)

Record Response : Type := {
  statusCode : Z;
  body : Body
}.

(** [event['Records']], each record by its bucket name and object key. *)
Definition Event : Type := list (string * string).

(** ['; '.join(errors[:10]) if errors else None] *)
Definition error_summary (errors : list string) : option string :=
  match errors with
  | [] => None
  | _ :: _ => Some (join "; " (take 10 errors))
  end.

Definition handler (event : Event) : M Response :=
  try_except
    (match event with
     | [] => raise (IndexError "list index out of range")
     | (bucket, key) :: _ =>
         let file_name := basename key in
         id ← create_csv_upload_record file_name key;
         try_except
           ('(total, processed, failed, errors) ← process_csv_file bucket key;
            update_csv_upload_status id "completed"
              (Some total) (Some processed) (Some failed) (error_summary errors);;
            trigger_matching_workflow bucket key;;
            mret {| statusCode := 200;
                    body := Processed id total processed failed |})
           (fun e =>
              update_csv_upload_status id "failed" None None None (Some (str_exn e));;
              raise e)
     end)
    (fun e => mret {| statusCode := 500; body := Failed (str_exn e) |}).

(* ===================================================================== *)
(** ** The second writer of [users]: [lambda_handler] ([process_csv.py]) *)

(** The arguments of [cursor.execute] for one row, evaluated left to
    right. *)
Definition legacy_params (row : Row) : result LegacyParams :=
  let user_id := get row "user_id" (VStr "") in
  let name := get row "name" (VStr "") in
  let email := get row "email" (VStr "") in
  monthly_income ← py_float (get row "monthly_income" (VInt 0));
  credit_score ← py_int (get row "credit_score" (VInt 0));
  let employment_status := get row "employment_status" (VStr "") in
  age ← py_int (get row "age" (VInt 0));
  Return {| lp_user_id := user_id;
            lp_name := name;
            lp_email := email;
            lp_monthly_income := monthly_income;
            lp_credit_score := credit_score;
            lp_employment_status := employment_status;
            lp_age := age |}.

(** Modelled from the spec: the table declarations ([schema.sql]) are not
    among the sources.  [email] is the required natural key of [users]: the
    store refuses a NULL for it. *)
Definition not_null_violation : string :=
  "null value in column email violates not-null constraint".

(** [cursor.execute("INSERT INTO users (user_id, name, email, ...) ...
    ON CONFLICT (email) DO NOTHING", (...))] for the [i]-th row; the result
    is [cursor.rowcount]. *)
Definition execute_insert (i : nat) (p : LegacyParams) : Cur nat := fun t =>
  let t := tx_log (CExecuteLegacy (lp_email p)) t in
  if aborted t then (Raise (DatabaseError in_failed_sql_transaction), t)
  else match legacy_fault E i p with
       | Some msg => (Raise (DatabaseError msg), tx_abort t)
       | None =>
           match sql_text (lp_email p) with
           | Some e =>
               let '(table, rowcount) := insert_do_nothing (now t) e p (users (working t)) in
               (Return rowcount, tx_set_users table t)
           | None => (Raise (DatabaseError not_null_violation), tx_abort t)
           end
       end.

(** The [for row in csv_reader] loop of [lambda_handler], from the [i]-th
    row on. *)
Fixpoint legacy_loop (i : nat) (rows : list Row)
    (users_inserted users_skipped : nat) : Cur (nat * nat) := fun t =>
  match rows with
  | [] => (Return (users_inserted, users_skipped), t)
  | row :: rest =>
      match legacy_params row with
      | Raise _ => legacy_loop (S i) rest users_inserted (S users_skipped) t
      | Return p =>
          match execute_insert i p t with
          | (Return rowcount, t') =>
              if (0 <? rowcount)%nat
              then legacy_loop (S i) rest (S users_inserted) users_skipped t'
              else legacy_loop (S i) rest users_inserted (S users_skipped) t'
          | (Raise _, t') =>
              legacy_loop (S i) rest users_inserted (S users_skipped) t'
          end
      end
  end.

(** [conn = get_db_connection(); cursor = conn.cursor(); ...;
    conn.commit()]: the work of a transaction that is left without a
    commit is lost. *)
Definition connect_and_commit {A : Type} (body : Cur A) : M A := fun w =>
  match body (begin w) with
  | (Return a, t) => (Return a, commit w t)
  | (Raise e, t) => (Raise e, rollback w t)
  end.

Inductive LegacyBody : Type :=
| Inserted (users_inserted users_skipped : nat) (file : string)
| LegacyError (error : string).

Record LegacyResponse : Type := {
  legacy_statusCode : Z;
  legacy_body : LegacyBody
}.

(** [if N8N_WEBHOOK_URL: try: requests.post(...) except Exception: ...] *)
Definition legacy_webhook : M unit :=
  match N8N_WEBHOOK_URL E with
  | None => mret tt
  | Some url =>
      if negb (nonempty url) then mret tt
      else
        log (CPost url);;
        match requests_post E url with
        | Return _ => mret tt
        | Raise _ => mret tt
        end
  end.

Definition lambda_handler (event : Event) : M LegacyResponse :=
  try_except
    (match event with
     | [] => raise (IndexError "list index out of range")
     | (bucket, quoted) :: _ =>
         let key := unquote_plus quoted in
         csv_content ← download bucket key;
         rows ← read_rows csv_content;
         '(users_inserted, users_skipped) ← connect_and_commit (legacy_loop 0 rows 0 0);
         legacy_webhook;;
         mret {| legacy_statusCode := 200;
                 legacy_body := Inserted users_inserted users_skipped key |}
     end)
    (fun e => mret {| legacy_statusCode := 500; legacy_body := LegacyError (str_exn e) |}).

End Pipeline.

(* ===================================================================== *)
(** ** [Plain]: the conversions on plain ASCII text

    An implementation of [Builtins] on which the embedding runs.  Numbers
    are the decimal numerals of ASCII ([float] reads [digits] and
    [digits.digits] with an optional sign, exactly, as a rational; the
    runtime also reads forms such as [1.] and [.5], exponents, [inf] and
    [nan]); the CSV reader reads unquoted comma-separated lines ended by a
    line feed. *)

Module Plain.

(** [str.isspace] on ASCII *)
Definition is_space (c : ascii) : bool :=
  let n := nat_of_ascii c in
  ((9 <=? n) && (n <=? 13) || (28 <=? n) && (n <=? 32))%nat.

Fixpoint lstrip (s : string) : string :=
  match s with
  | EmptyString => EmptyString
  | String c s' => if is_space c then lstrip s' else s
  end.

Fixpoint rstrip (s : string) : string :=
  match s with
  | EmptyString => EmptyString
  | String c s' =>
      let r := rstrip s' in
      if is_space c && negb (nonempty r) then EmptyString else String c r
  end.

Definition strip (s : string) : string := rstrip (lstrip s).

Definition digit (c : ascii) : option Z :=
  let n := Z.of_nat (nat_of_ascii c) in
  if (48 <=? n) && (n <=? 57) then Some (n - 48) else None.

(** Decimal digits, single underscores allowed between two of them. *)
Fixpoint digits (s : string) (acc : Z) (after_digit : bool) : option Z :=
  match s with
  | EmptyString => if after_digit then Some acc else None
  | String c s' =>
      match digit c with
      | Some d => digits s' (10 * acc + d) true
      | None =>
          if Ascii.eqb c "_" && after_digit then digits s' acc false else None
      end
  end.

Definition signed (s : string) : bool * string :=
  match s with
  | String "-" s' => (true, s')
  | String "+" s' => (false, s')
  | _ => (false, s)
  end.

Definition int_of_str (s : string) : result Z :=
  let '(neg, s') := signed (strip s) in
  match digits s' 0 false with
  | Some n => Return (if neg then - n else n)
  | None => Raise (ValueError "invalid literal for int() with base 10")
  end.

(** The text before and after the first occurrence of [c]. *)
Fixpoint split_at (c : ascii) (s : string) : string * option string :=
  match s with
  | EmptyString => (EmptyString, None)
  | String a s' =>
      if Ascii.eqb a c then (EmptyString, Some s')
      else let '(l, r) := split_at c s' in (String a l, r)
  end.

Definition float_of_str (s : string) : result Q :=
  let '(neg, s') := signed (strip s) in
  let '(whole, frac) := split_at "." s' in
  let sign := if neg then -1 else 1 in
  match digits whole 0 false, frac with
  | Some n, None => Return (Qmake (sign * n) 1)
  | Some n, Some f =>
      match digits f 0 false with
      | Some m =>
          let scale := 10 ^ Z.of_nat (String.length f) in
          Return (Qmake (sign * (n * scale + m)) (Z.to_pos scale))
      | None => Raise (ValueError "could not convert string to float")
      end
  | None, _ => Raise (ValueError "could not convert string to float")
  end.

(** The pieces of [s] between the occurrences of [c]. *)
Fixpoint split (c : ascii) (s : string) : list string :=
  match s with
  | EmptyString => [EmptyString]
  | String a s' =>
      match split c s' with
      | piece :: pieces =>
          if Ascii.eqb a c then EmptyString :: piece :: pieces
          else String a piece :: pieces
      | [] => [String a EmptyString]
      end
  end.

(** The fields of a line; a blank line has none. *)
Definition fields (line : string) : list string :=
  if nonempty line then split "," line else [].

(** [dict(zip(fieldnames, row))], the fields that a short row lacks set to
    [None]. *)
Fixpoint zip_row (fieldnames row : list string) (d : Row) : Row :=
  match fieldnames, row with
  | [], _ => d
  | name :: names, cell :: cells => zip_row names cells (<[name := Some cell]> d)
  | name :: names, [] => zip_row names [] (<[name := None]> d)
  end.

Definition DictReader (s : string) : result (list Row) :=
  match split "010" s with
  | [] => Return []
  | header :: lines =>
      let fieldnames := fields header in
      Return (map (fun line => zip_row fieldnames (fields line) ∅)
                  (filter (fun line => nonempty line = true) lines))
  end.

Definition hex (c : ascii) : option nat :=
  let n := nat_of_ascii c in
  if ((48 <=? n) && (n <=? 57))%nat then Some (n - 48)%nat
  else if ((65 <=? n) && (n <=? 70))%nat then Some (n - 55)%nat
  else if ((97 <=? n) && (n <=? 102))%nat then Some (n - 87)%nat
  else None.

Fixpoint unquote_plus (s : string) : string :=
  match s with
  | EmptyString => EmptyString
  | String "+" s' => String " " (unquote_plus s')
  | String "%" (String a (String b s' as s1) as s2) =>
      match hex a, hex b with
      | Some h, Some l => String (ascii_of_nat (16 * h + l)) (unquote_plus s')
      | _, _ => String "%" (String a (unquote_plus s1))
      end
  | String c s' => String c (unquote_plus s')
  end.

#[export] Instance builtins : Builtins :=
  Build_Builtins Q float_of_str (fun n => Qmake n 1) (fun q => Qnum q <? 0)
    int_of_str strip DictReader unquote_plus.

End Plain.

(* ===================================================================== *)
(** ** Vocabulary of the statements *)

Section Vocabulary.
Context `{B : Builtins}.

(** [int(v)] returns an integer of the closed range [lo, hi]. *)
Definition int_within (lo hi : Z) (v : value) : bool :=
  match py_int v with
  | Return n => (lo <=? n) && (n <=? hi)
  | Raise _ => false
  end.

(** The trimmed email of a row has an ['@']. *)
Definition trimmed_email_has_at (row : Row) : bool :=
  match str_strip (get row "email" (VStr "")) with
  | Return s => has_at s
  | Raise _ => false
  end.

(** The store accepts every statement of a batch, counted from [i]. *)
Fixpoint accepts_all (E : Env) (i : nat) (batch : list UserRecord) : bool :=
  match batch with
  | [] => true
  | user :: rest =>
      match store_fault E i user with
      | None => accepts_all E (S i) rest
      | Some _ => false
      end
  end.

(** The records of a batch before the first that the store refuses. *)
Fixpoint accepted_prefix (E : Env) (i : nat) (batch : list UserRecord) : nat :=
  match batch with
  | [] => 0
  | user :: rest =>
      match store_fault E i user with
      | None => S (accepted_prefix E (S i) rest)
      | Some _ => 0
      end
  end.

(** The upserts of a batch, one after the other. *)
Definition upsert_all (now : Z) (batch : list UserRecord) (table : list UserRow)
    : list UserRow :=
  fold_left (fun table user => upsert now user table) batch table.

(** The emails of a table, in the order of its rows. *)
Definition emails (table : list UserRow) : list string := map row_email table.

(** A row holds the values of a record. *)
Definition holds (r : UserRow) (user : UserRecord) : Prop :=
  row_email r = email user /\
  row_monthly_income r = monthly_income user /\
  row_credit_score r = credit_score user /\
  row_employment_status r = Some (employment_status user) /\
  row_age r = age user.

(** A row but for [updated_at]. *)
Definition but_updated_at (r : UserRow) : UserRow :=
  {| row_user_id := row_user_id r;
     row_name := row_name r;
     row_email := row_email r;
     row_monthly_income := row_monthly_income r;
     row_credit_score := row_credit_score r;
     row_employment_status := row_employment_status r;
     row_age := row_age r;
     created_at := created_at r;
     updated_at := 0 |}.

(** The last record of a batch with a given email. *)
Fixpoint last_with (e : string) (batch : list UserRecord) : option UserRecord :=
  match batch with
  | [] => None
  | user :: rest =>
      match last_with e rest with
      | Some later => Some later
      | None => if decide (email user = e) then Some user else None
      end
  end.

(** The first row of a table with a given email. *)
Fixpoint find_email (e : string) (table : list UserRow) : option UserRow :=
  match table with
  | [] => None
  | r :: rest => if decide (row_email r = e) then Some r else find_email e rest
  end.

Definition is_trigger (c : call) : bool :=
  match c with CTrigger _ _ => true | _ => false end.

Definition is_post (c : call) : bool :=
  match c with CPost _ => true | _ => false end.

(** A call that validates a row or writes to [users]. *)
Definition is_validate_or_upsert (c : call) : bool :=
  match c with
  | CValidate _ | CInsertUsersBatch _ | CExecute _ | CExecuteLegacy _ => true
  | _ => false
  end.

(** A call that writes to [users]. *)
Definition is_upsert (c : call) : bool :=
  match c with
  | CInsertUsersBatch _ | CExecute _ | CExecuteLegacy _ => true
  | _ => false
  end.

(** The environment with another webhook. *)
Definition with_webhook (url : option string) (post : string -> result Z)
    (E : Env) : Env :=
  {| get_object := get_object E;
     store_fault := store_fault E;
     legacy_fault := legacy_fault E;
     CURRENT_TIMESTAMP := CURRENT_TIMESTAMP E;
     N8N_WEBHOOK_URL := url;
     requests_post := post |}.

(** The batch [id] is in [csv_uploads], and every row of that id
    satisfies [P]. *)
Definition recorded (w : World) (id : Z) (P : UploadRow -> Prop) : Prop :=
  (exists up, up ∈ csv_uploads w /\ upload_id up = id) /\
  (forall up, up ∈ csv_uploads w -> upload_id up = id -> P up).

(** The calls of [w'] that [w] does not have yet. *)
Definition new_calls (w w' : World) : list call :=
  drop (length (calls w)) (calls w').

(** A recorded message names a field and shows its value. *)
Definition carries (field shown message : string) : bool :=
  contains field message && contains shown message.

End Vocabulary.

(* ===================================================================== *)
(** ** A sample deployment

    The embedding run on [Plain]: a bucket with three objects, a store
    whose [monthly_income] column overflows from [10^8] on, a clock that
    ticks once per transaction, and a webhook. *)

Module Sample.
Section Sample.
#[local] Existing Instance Plain.builtins.

Definition applicants : string :=
  "email,monthly_income,credit_score,employment_status,age
a@x.org,5000.50,700,employed,30
b@x.org,100,200,,40
 c@x.org ,-0.0, 8_50 , self , 18
d@x.org,1,300
".

Definition header_only : string :=
  "email,monthly_income,credit_score,employment_status,age
".

Definition overflowing : string :=
  "email,monthly_income,credit_score,employment_status,age
a@x.org,5000.50,700,employed,30
b@x.org,100000000,640,employed,41
c@x.org,2500,810,retired,67
".

Definition raise_of_a : string :=
  "email,monthly_income,credit_score,employment_status,age
a@x.org,9000,800,promoted,31
".

Definition no_such_key : exn :=
  ExternalError "An error occurred (NoSuchKey) when calling the GetObject operation: The specified key does not exist.".

Definition s3 (bucket key : string) : result string :=
  if decide (key = "uploads/applicants.csv") then Return applicants
  else if decide (key = "uploads/empty.csv") then Return header_only
  else if decide (key = "uploads/overflowing.csv") then Return overflowing
  else if decide (key = "uploads/raise.csv") then Return raise_of_a
  else Raise no_such_key.

Definition numeric_overflow (i : nat) (user : UserRecord) : option string :=
  if Qle_bool (Qmake 100000000 1) (monthly_income user)
  then Some "numeric field overflow"
  else None.

Definition env : Env :=
  {| get_object := s3;
     store_fault := numeric_overflow;
     legacy_fault := fun _ _ => None;
     CURRENT_TIMESTAMP := fun n => 1000 + Z.of_nat n;
     N8N_WEBHOOK_URL := Some "https://n8n.example.org/webhook/match";
     requests_post := fun _ => Return 200 |}.

Definition unreachable (url : string) : result Z :=
  Raise (ExternalError "HTTPSConnectionPool: Max retries exceeded").

Definition start : World :=
  {| users := []; csv_uploads := []; next_upload_id := 1; txns := 0; calls := [] |}.

(** Three records as [validate_user_data] returns them. *)
Definition alice : UserRecord :=
  {| email := "a@x.org"; monthly_income := Qmake 500050 100; credit_score := 700;
     employment_status := "employed"; age := 30 |}.

Definition bob : UserRecord :=
  {| email := "b@x.org"; monthly_income := Qmake 100000000 1; credit_score := 640;
     employment_status := "employed"; age := 41 |}.

Definition carol : UserRecord :=
  {| email := "c@x.org"; monthly_income := Qmake 2500 1; credit_score := 810;
     employment_status := "retired"; age := 67 |}.

(** A row of [users] for [a@x.org], stored at time 7. *)
Definition stored_alice : UserRow :=
  {| row_user_id := None; row_name := None; row_email := "a@x.org";
     row_monthly_income := Qmake 100 1; row_credit_score := 600;
     row_employment_status := Some "student"; row_age := 20;
     created_at := 7; updated_at := 7 |}.

Definition with_alice : World :=
  {| users := [stored_alice]; csv_uploads := []; next_upload_id := 1;
     txns := 0; calls := [] |}.

Definition low_score_row : Row :=
  <["email" := Some "a@x.org"]>
    (<["credit_score" := Some "200"]> (<["age" := Some "30"]> ∅)).

Definition email_only_row : Row := <["email" := Some "a@x.org"]> ∅.

Definition good_row : Row :=
  <["email" := Some "e@x.org"]>
    (<["credit_score" := Some "720"]> (<["age" := Some "52"]> ∅)).

Definition event_of (key : string) : Event := [("loans", key)].

(** The rows of [applicants], and the world once [handler] has created the
    batch and [process_csv_file] has returned. *)
Definition applicant_rows : list Row :=
  Eval vm_compute in
    match DictReader applicants with Return rows => rows | Raise _ => [] end.

Definition applicants_processed : World :=
  Eval vm_compute in
    (process_csv_file env "loans" "uploads/applicants.csv"
       (create_csv_upload_record env "applicants.csv" "uploads/applicants.csv" start).2).2.

(** The record that [raise_of_a] carries. *)
Definition promoted_alice : UserRecord :=
  {| email := "a@x.org"; monthly_income := Qmake 9000 1; credit_score := 800;
     employment_status := "promoted"; age := 31 |}.

Definition promoted_alice_params : LegacyParams :=
  {| lp_user_id := VStr ""; lp_name := VStr ""; lp_email := VStr "a@x.org";
     lp_monthly_income := Qmake 9000 1; lp_credit_score := 800;
     lp_employment_status := VStr "promoted"; lp_age := 31 |}.

End Sample.
End Sample.

(* ===================================================================== *)
(** ** Reading [users]: [get_newly_added_users] ([db_utils.py]) *)

Section Readers.
Context `{B : Builtins}.

(** A row of the [SELECT]: the six columns that it names. *)
Record SelectedUser : Type := {
  sel_user_id : option string;
  sel_email : string;
  sel_monthly_income : pyfloat;
  sel_credit_score : Z;
  sel_employment_status : option string;
  sel_age : Z
}.

Definition selected (r : UserRow) : SelectedUser :=
  {| sel_user_id := row_user_id r;
     sel_email := row_email r;
     sel_monthly_income := row_monthly_income r;
     sel_credit_score := row_credit_score r;
     sel_employment_status := row_employment_status r;
     sel_age := row_age r |}.

(** [r1] may come before [r2] under [ORDER BY created_at DESC]. *)
Definition not_older (r1 r2 : UserRow) : Prop := created_at r2 <= created_at r1.

(** [SELECT ... FROM users ORDER BY created_at DESC], with [LIMIT limit]
    when [limit] is truthy.  The order in which the store returns the rows
    is [ordered]: SQL leaves open how rows of equal [created_at] follow
    each other.  PostgreSQL refuses a negative [LIMIT]. *)
Definition get_newly_added_users (E : Env)
    (ordered : list UserRow -> list UserRow) (limit : option Z)
    : M (list SelectedUser) :=
  get_db_cursor E (fun t =>
    let rows := ordered (users (working t)) in
    match limit with
    | None => (Return (map selected rows), t)
    | Some n =>
        if n =? 0 then (Return (map selected rows), t)
        else if n <? 0 then
          (Raise (DatabaseError "LIMIT must not be negative"), tx_abort t)
        else (Return (map selected (take (Z.to_nat n) rows)), t)
    end).

End Readers.

(* ===================================================================== *)
(** ** Connecting to the store: [get_db_connection] ([db_utils.py]) *)

(** The result of code that reads [os.environ]: [os.environ[key]] raises
    [KeyError(key)] for a variable that is not set. *)
Inductive configured (A : Type) : Type :=
| Configured (a : A)
| KeyError (key : string)
| Raised (e : exn).
Arguments Configured {A} a.
Arguments KeyError {A} key.
Arguments Raised {A} e.

(** [str(e)]: a [KeyError] shows the [repr] of its key. *)
Definition str_configured_exn (key_or_exn : string + exn) : string :=
  match key_or_exn with
  | inl key => "'" +:+ key +:+ "'"
  | inr e => str_exn e
  end.

(** [os.environ[key]] *)
Definition environ_item (environ : gmap string string) (key : string)
    : configured string :=
  match environ !! key with
  | Some v => Configured v
  | None => KeyError key
  end.

(** The keyword arguments of [psycopg2.connect]. *)
Record ConnectArgs : Type := {
  pg_host : string;
  pg_port : string;
  pg_database : string;
  pg_user : string;
  pg_password : string;
  pg_connect_timeout : Z
}.

(** The arguments are evaluated from left to right; [connect] is
    [psycopg2.connect], whose exception is logged and raised again. *)
Definition get_db_connection {Conn : Type} (environ : gmap string string)
    (connect : ConnectArgs -> result Conn) : configured Conn :=
  match environ_item environ "DB_HOST" with
  | Configured host =>
      let port := default "5432" (environ !! "DB_PORT") in
      match environ_item environ "DB_NAME" with
      | Configured database =>
          match environ_item environ "DB_USER" with
          | Configured user =>
              match environ_item environ "DB_PASSWORD" with
              | Configured password =>
                  match connect {| pg_host := host; pg_port := port;
                                   pg_database := database; pg_user := user;
                                   pg_password := password;
                                   pg_connect_timeout := 10 |} with
                  | Return conn => Configured conn
                  | Raise e => Raised e
                  end
              | KeyError key => KeyError key
              | Raised e => Raised e
              end
          | KeyError key => KeyError key
          | Raised e => Raised e
          end
      | KeyError key => KeyError key
      | Raised e => Raised e
      end
  | KeyError key => KeyError key
  | Raised e => Raised e
  end.

(* ===================================================================== *)
(** ** Issuing upload URLs: [handler] of [get_upload_url.py] *)

(** [s.endswith(suffix)] *)
Fixpoint ends_with (suffix s : string) : bool :=
  bool_decide (s = suffix) ||
  match s with
  | EmptyString => false
  | String _ s' => ends_with suffix s'
  end.

(** [s[:n]] *)
Fixpoint str_take (n : nat) (s : string) : string :=
  match n, s with
  | S n', String c s' => String c (str_take n' s')
  | _, _ => EmptyString
  end.

(** The arguments of [s3_client.generate_presigned_post]. *)
Record PresignRequest : Type := {
  pr_bucket : string;
  pr_key : string;
  pr_field_content_type : string;        (* Fields={'Content-Type': ...} *)
  pr_condition_content_type : string;    (* Conditions[0] *)
  pr_content_length_range : Z * Z;       (* Conditions[1] *)
  pr_expires_in : Z
}.

(** What [generate_presigned_post] returns. *)
Record PresignedPost : Type := {
  presigned_url : string;
  presigned_fields : list (string * string)
}.

(** The collaborators of [get_upload_url.handler]. *)
Record Gateway : Type := {
  (* datetime.utcnow().strftime('%Y%m%d-%H%M%S') *)
  utcnow : string;
  (* str(uuid.uuid4()) *)
  uuid4 : string;
  (* os.environ, read for 'CSV_BUCKET' *)
  environ : gmap string string;
  generate_presigned_post : PresignRequest -> result PresignedPost
}.

Inductive UploadBody : Type :=
| UploadUrl (upload_url : string) (fields : list (string * string))
    (s3_key bucket : string) (expires_in : Z)
| OnlyCsv                                 (* 'Only CSV files are allowed' *)
| UploadFailed (message : string).        (* 'Failed to generate upload URL' *)

Record UploadResponse : Type := {
  upload_statusCode : Z;
  upload_headers : list (string * string);
  upload_body : UploadBody
}.

Definition cors_headers : list (string * string) :=
  [("Access-Control-Allow-Origin", "*");
   ("Access-Control-Allow-Headers", "Content-Type");
   ("Access-Control-Allow-Methods", "GET,OPTIONS")].

(** [f"uploads/{timestamp}-{unique_id}-{original_filename}"] *)
Definition upload_key (timestamp unique_id original_filename : string) : string :=
  "uploads/" +:+ timestamp +:+ "-" +:+ unique_id +:+ "-" +:+ original_filename.

(** [handler(event, context)] of [get_upload_url.py], for
    [event.get('queryStringParameters')] a mapping of text or [None]; [lower]
    is [str.lower].  The result is the response and the requests made to
    [generate_presigned_post]. *)
Definition get_upload_url (lower : string -> string) (G : Gateway)
    (queryStringParameters : option (gmap string string))
    : UploadResponse * list PresignRequest :=
  let query_params := default ∅ queryStringParameters in
  let original_filename := default "upload.csv" (query_params !! "filename") in
  let content_type := default "text/csv" (query_params !! "content_type") in
  if negb (ends_with ".csv" (lower original_filename)) then
    ({| upload_statusCode := 400;
        upload_headers := cors_headers;
        upload_body := OnlyCsv |}, [])
  else
    let timestamp := utcnow G in
    let unique_id := str_take 8 (uuid4 G) in
    let s3_key := upload_key timestamp unique_id original_filename in
    match environ_item (environ G) "CSV_BUCKET" with
    | Configured bucket_name =>
        let request :=
          {| pr_bucket := bucket_name;
             pr_key := s3_key;
             pr_field_content_type := content_type;
             pr_condition_content_type := content_type;
             pr_content_length_range := (1, 10485760);
             pr_expires_in := 3600 |} in
        match generate_presigned_post G request with
        | Return presigned_post =>
            ({| upload_statusCode := 200;
                upload_headers := cors_headers ++ [("Content-Type", "application/json")];
                upload_body := UploadUrl (presigned_url presigned_post)
                                 (presigned_fields presigned_post)
                                 s3_key bucket_name 3600 |},
             [request])
        | Raise e =>
            ({| upload_statusCode := 500;
                upload_headers := cors_headers;
                upload_body := UploadFailed (str_exn e) |},
             [request])
        end
    | KeyError key =>
        ({| upload_statusCode := 500;
            upload_headers := cors_headers;
            upload_body := UploadFailed (str_configured_exn (inl key)) |}, [])
    | Raised e =>
        ({| upload_statusCode := 500;
            upload_headers := cors_headers;
            upload_body := UploadFailed (str_exn e) |}, [])
    end.

(* ===================================================================== *)
(** ** Further vocabulary *)

Section MoreVocabulary.
Context `{B : Builtins}.

(** What the validator demands of a record. *)
Definition record_valid (user : UserRecord) : Prop :=
  has_at (email user) = true /\
  300 <= credit_score user <= 850 /\
  18 <= age user <= 100 /\
  float_lt_zero (monthly_income user) = false.

(** The same of a row of [users]. *)
Definition row_valid (r : UserRow) : Prop :=
  has_at (row_email r) = true /\
  300 <= row_credit_score r <= 850 /\
  18 <= row_age r <= 100 /\
  float_lt_zero (row_monthly_income r) = false.

(** Every batch has an id that the sequence has already passed. *)
Definition ids_below (w : World) : Prop :=
  Forall (fun up => upload_id up < next_upload_id w) (csv_uploads w).

(** A batch but for [processed_at]. *)
Definition but_processed_at (up : UploadRow) : UploadRow :=
  {| upload_id := upload_id up;
     file_name := file_name up;
     s3_key := s3_key up;
     status := status up;
     total_records := total_records up;
     processed_records := processed_records up;
     failed_records := failed_records up;
     error_message := error_message up;
     upload_created_at := upload_created_at up;
     processed_at := None |}.

(** Two rows are the same user: the columns that no upsert writes. *)
Definition same_identity (r r' : UserRow) : Prop :=
  row_email r' = row_email r /\
  created_at r' = created_at r /\
  row_user_id r' = row_user_id r /\
  row_name r' = row_name r.

(** The store accepts every [INSERT] of [lambda_handler] for the rows
    [rows], counted from [i], whose parameters can be computed. *)
Fixpoint legacy_accepts_all (E : Env) (i : nat) (rows : list Row) : bool :=
  match rows with
  | [] => true
  | row :: rest =>
      match legacy_params row with
      | Raise _ => legacy_accepts_all E (S i) rest
      | Return p =>
          match legacy_fault E i p, sql_text (lp_email p) with
          | None, Some _ => legacy_accepts_all E (S i) rest
          | _, _ => false
          end
      end
  end.

(** The file name that a request for an upload URL names. *)
Definition requested_filename (q : option (gmap string string)) : string :=
  default "upload.csv" (default ∅ q !! "filename").

(** ['/' not in s] *)
Fixpoint no_slash (s : string) : bool :=
  match s with
  | EmptyString => true
  | String c s' => negb (Ascii.eqb c "/") && no_slash s'
  end.

End MoreVocabulary.

(* ===================================================================== *)
(** ** The store out of reach

    [get_db_cursor] connects anew each time it is entered, and the
    connection, the statement on [csv_uploads] and the commit can each be
    refused.  [Outage] has the functions of [db_utils.py] and
    [csv_processor.py] that reach the store, with these refusals; with a
    store that refuses nothing they are the functions above. *)

Module Outage.
Section Outage.
Context `{B : Builtins}.
#[local] Existing Instance M_ret.
#[local] Existing Instance M_bind.

(** The refusals of the store, each by the number of connections that were
    asked for before. *)
Record Store : Type := {
  (* psycopg2.connect raising in get_db_connection *)
  connect_fault : nat -> option string;
  (* cursor.execute of the statement on csv_uploads raising *)
  uploads_fault : nat -> option string;
  (* conn.commit() raising *)
  commit_fault : nat -> option string
}.

(** The store that refuses nothing. *)
Definition up : Store :=
  {| connect_fault := fun _ => None;
     uploads_fault := fun _ => None;
     commit_fault := fun _ => None |}.

Variable E : Env.
Variable D : Store.

(** [conn = get_db_connection()] raising: [conn] is [None], there is
    nothing to roll back, and the error is raised again. *)
Definition refused (w : World) : World :=
  {| users := users w; csv_uploads := csv_uploads w;
     next_upload_id := next_upload_id w;
     txns := S (txns w); calls := calls w |}.

(** [with get_db_cursor() as cursor: body]: [conn.commit()] follows the
    body when it returns; an error of the body or of the commit is
    answered by [conn.rollback()] and raised again. *)
Definition get_db_cursor {A : Type} (body : Cur A) : M A := fun w =>
  match connect_fault D (txns w) with
  | Some msg => (Raise (DatabaseError msg), refused w)
  | None =>
      match body (begin E w) with
      | (Return a, t) =>
          match commit_fault D (txns w) with
          | Some msg => (Raise (DatabaseError msg), rollback w t)
          | None => (Return a, commit w t)
          end
      | (Raise e, t) => (Raise e, rollback w t)
      end
  end.

(** [cursor.execute] of a statement on [csv_uploads], on the [n]-th
    connection. *)
Definition execute_uploads {A : Type} (n : nat) (statement : Cur A) : Cur A := fun t =>
  match uploads_fault D n with
  | Some msg => (Raise (DatabaseError msg), tx_abort t)
  | None => statement t
  end.

Definition insert_users_batch (users_data : list UserRecord)
    : M (nat * nat * list string) :=
  log (CInsertUsersBatch (length users_data));;
  get_db_cursor (insert_loop E 0 users_data 0 0 []).

Definition update_csv_upload_status (id : Z) (status : string)
    (total processed failed : option nat) (error : option string) : M unit := fun w =>
  get_db_cursor (execute_uploads (txns w) (fun t =>
    (Return tt,
     tx_set_uploads
       (update_where id (set_fields (now t) status total processed failed error)
          (csv_uploads (working t)))
       (next_upload_id (working t)) t))) w.

Definition create_csv_upload_record (name key : string) : M Z := fun w =>
  get_db_cursor (execute_uploads (txns w) (fun t =>
    let id := next_upload_id (working t) in
    (Return id,
     tx_set_uploads
       (csv_uploads (working t) ++ [pending_upload id (now t) name key])
       (id + 1) t))) w.

Definition process_csv_file (bucket key : string)
    : M (nat * nat * nat * list string) :=
  csv_content ← download E bucket key;
  rows ← read_rows csv_content;
  log_all (map CValidate rows);;
  let st := scan_rows rows in
  match users_data st with
  | _ :: _ =>
      '(success_count, failed_count, db_errors) ← insert_users_batch (users_data st);
      mret (scan_total st, success_count,
            (invalid_records st + failed_count)%nat,
            scan_errors st ++ db_errors)
  | [] =>
      mret (scan_total st, 0%nat, scan_total st, scan_errors st)
  end.

Definition handler (event : Event) : M Response :=
  try_except
    (match event with
     | [] => raise (IndexError "list index out of range")
     | (bucket, key) :: _ =>
         let file_name := basename key in
         id ← create_csv_upload_record file_name key;
         try_except
           ('(total, processed, failed, errors) ← process_csv_file bucket key;
            update_csv_upload_status id "completed"
              (Some total) (Some processed) (Some failed) (error_summary errors);;
            trigger_matching_workflow E bucket key;;
            mret {| statusCode := 200;
                    body := Processed id total processed failed |})
           (fun e =>
              update_csv_upload_status id "failed" None None None (Some (str_exn e));;
              raise e)
     end)
    (fun e => mret {| statusCode := 500; body := Failed (str_exn e) |}).

End Outage.

(** A batch that a run on [key] has added to the batches of [w]: it has the
    next id of the sequence, the key and the base name of the key, and it
    is pending, or in a terminal state with its processed timestamp. *)
Definition batch_of `{B : Builtins} (w : World) (key : string) (up : UploadRow) : Prop :=
  upload_id up = next_upload_id w /\
  file_name up = basename key /\
  s3_key up = key /\
  (status up = "pending" /\ processed_at up = None \/
   is_terminal (status up) = true /\ is_Some (processed_at up)).

(** The batches of [w'] are those of [w] and at most one batch of a run on
    [key] after them, and the sequence has passed its id. *)
Definition appended `{B : Builtins} (w : World) (key : string) (w' : World) : Prop :=
  exists added : list UploadRow,
    csv_uploads w' = csv_uploads w ++ added /\
    (length added <= 1)%nat /\
    Forall (batch_of w key) added /\
    next_upload_id w <= next_upload_id w' /\
    (added <> [] -> next_upload_id w < next_upload_id w').

End Outage.

(* ===================================================================== *)
(** ** More of the sample deployment *)

Module Desk.
Section Desk.
#[local] Existing Instance Plain.builtins.

(** [str.lower] on ASCII *)
Definition lower_ascii (c : ascii) : ascii :=
  let n := nat_of_ascii c in
  if ((65 <=? n) && (n <=? 90))%nat then ascii_of_nat (n + 32) else c.

Fixpoint lower (s : string) : string :=
  match s with
  | EmptyString => EmptyString
  | String c s' => String (lower_ascii c) (lower s')
  end.

Definition presign (request : PresignRequest) : result PresignedPost :=
  Return {| presigned_url := "https://" +:+ pr_bucket request +:+ ".s3.amazonaws.com/";
            presigned_fields := [("key", pr_key request);
                                 ("Content-Type", pr_field_content_type request)] |}.

Definition gateway : Gateway :=
  {| utcnow := "20240131-235959";
     uuid4 := "3f2b8c1e-7a4d-4e0b-9c55-1d2e3f4a5b6c";
     environ := <["CSV_BUCKET" := "loans"]> ∅;
     generate_presigned_post := presign |}.

Definition query (filename : string) : option (gmap string string) :=
  Some (<["filename" := filename]> ∅).

#[local] Instance not_older_dec (r1 r2 : UserRow) : Decision (not_older r1 r2) :=
  Z_le_dec (created_at r2) (created_at r1).

(** [ORDER BY created_at DESC] by a merge sort. *)
Definition newest_first (table : list UserRow) : list UserRow :=
  merge_sort not_older table.

Definition second_user : UserRow :=
  {| row_user_id := None; row_name := None; row_email := "z@x.org";
     row_monthly_income := Qmake 10 1; row_credit_score := 500;
     row_employment_status := Some "employed"; row_age := 44;
     created_at := 9; updated_at := 9 |}.

Definition two_users : World :=
  {| users := [Sample.stored_alice; second_user]; csv_uploads := [];
     next_upload_id := 1; txns := 0; calls := [] |}.

Definition database_settings : gmap string string :=
  <["DB_HOST" := "db.example.org"]>
    (<["DB_NAME" := "loan_eligibility"]>
       (<["DB_USER" := "admin"]> (<["DB_PASSWORD" := "secret"]> ∅))).

Definition reachable (args : ConnectArgs) : result ConnectArgs := Return args.

(** A carriage return that is followed by neither a line feed nor another
    carriage return. *)
Fixpoint stray_cr (s : string) : bool :=
  match s with
  | String c (String d _ as s') =>
      (Ascii.eqb c "013" && negb (Ascii.eqb d "010") && negb (Ascii.eqb d "013"))
      || stray_cr s'
  | _ => false
  end.

Fixpoint has_quote (s : string) : bool :=
  match s with
  | EmptyString => false
  | String c s' => Ascii.eqb c "034" || has_quote s'
  end.

(** The text of the error of [csv] for a carriage return inside an unquoted
    field. *)
Definition new_line_in_field : string :=
  "new-line character seen in unquoted field - do you need to open the file in universal-newline mode?".

(** [Plain] with the reader of the runtime on unquoted text: [StringIO]
    ends a line at a line feed only, and [csv] refuses a line in which a
    carriage return is followed by more of a field. *)
Definition reader_refuses_stray_cr : Builtins :=
  Build_Builtins Q Plain.float_of_str (fun n => Qmake n 1) (fun q => Qnum q <? 0)
    Plain.int_of_str Plain.strip
    (fun s => if stray_cr s && negb (has_quote s)
              then Raise (ExternalError new_line_in_field)
              else Plain.DictReader s)
    Plain.unquote_plus.

(** A payload with a carriage return in the middle of its header line. *)
Definition malformed : string :=
  "email,monthly_income" +:+ String "013" "credit_score,employment_status,age
a@x.org,5000.50,700,employed,30
".

(** The row of [Sample.raise_of_a]. *)
Definition promoted_row : Row :=
  <["email" := Some "a@x.org"]>
    (<["monthly_income" := Some "9000"]>
       (<["credit_score" := Some "800"]>
          (<["employment_status" := Some "promoted"]>
             (<["age" := Some "31"]> ∅)))).

(** An error raised without a text: [str(e)] is empty. *)
Definition without_text : exn := ExternalError "".

(** A deployment whose bucket answers each fetch by [without_text]. *)
Definition env_without_text : Env :=
  {| get_object := fun _ _ => Raise without_text;
     store_fault := fun _ _ => None;
     legacy_fault := fun _ _ => None;
     CURRENT_TIMESTAMP := fun n => 1000 + Z.of_nat n;
     N8N_WEBHOOK_URL := None;
     requests_post := fun _ => Return 200 |}.

(** A batch of an earlier run, and a world that has it. *)
Definition earlier_batch : UploadRow :=
  {| upload_id := 1;
     file_name := "march.csv";
     s3_key := "uploads/march.csv";
     status := "completed";
     total_records := Some 3%nat;
     processed_records := Some 3%nat;
     failed_records := Some 0%nat;
     error_message := None;
     upload_created_at := 5;
     processed_at := Some 6 |}.

Definition with_batch : World :=
  {| users := [Sample.stored_alice]; csv_uploads := [earlier_batch];
     next_upload_id := 2; txns := 0; calls := [] |}.

(** A store that is out of reach from the second connection on, and one
    that is never reached. *)
Definition lost_after_first : Outage.Store :=
  {| Outage.connect_fault := fun n => if (1 <=? n)%nat
                                      then Some "could not connect to server: Connection refused"
                                      else None;
     Outage.uploads_fault := fun _ => None;
     Outage.commit_fault := fun _ => None |}.

Definition never_reached : Outage.Store :=
  {| Outage.connect_fault := fun _ => Some "could not connect to server: Connection refused";
     Outage.uploads_fault := fun _ => None;
     Outage.commit_fault := fun _ => None |}.

(** The rows of [Sample.raise_of_a]. *)
Definition raise_rows : list Row :=
  Eval vm_compute in
    match DictReader Sample.raise_of_a with Return rows => rows | Raise _ => [] end.

(** The world once [process_csv_file] has run on [Sample.applicants]. *)
Definition applicants_scanned : World :=
  Eval vm_compute in
    (process_csv_file Sample.env "loans" "uploads/applicants.csv" Sample.start).2.

End Desk.

Section Malformed.
#[local] Existing Instance reader_refuses_stray_cr.

(** A deployment whose bucket holds a payload that the reader refuses. *)
Definition env_malformed : Env :=
  {| get_object := fun _ _ => Return malformed;
     store_fault := fun _ _ => None;
     legacy_fault := fun _ _ => None;
     CURRENT_TIMESTAMP := fun n => 1000 + Z.of_nat n;
     N8N_WEBHOOK_URL := None;
     requests_post := fun _ => Return 200 |}.

Definition start_malformed : World :=
  {| users := []; csv_uploads := []; next_upload_id := 1; txns := 0; calls := [] |}.

End Malformed.
End Desk.

(* ===================================================================== *)
(** ** Properties *)

Section Properties.
Context `{B : Builtins}.

(** *** The validator *)

(** What an accepted row satisfies. *)
Lemma validate_body_accepts (row : Row) (user : UserRecord) :
  validate_body row = Return user ->
  trimmed_email_has_at row = true /\
  int_within 300 850 (get row "credit_score" (VInt 0)) = true /\
  int_within 18 100 (get row "age" (VInt 0)) = true.
Proof.
  unfold validate_body, trimmed_email_has_at, int_within.
  destruct (str_strip (get row "email" _)) as [em|]; simpl; [|done].
  destruct (has_at em); [|by rewrite orb_true_r].
  destruct (negb (nonempty em) || negb true); [done|].
  destruct (py_float _) as [inc|]; simpl; [|done].
  destruct (py_int (get row "credit_score" _)) as [cs|]; simpl; [|done].
  destruct (py_int (get row "age" _)) as [ag|]; simpl; [|done].
  destruct (cs <? 300) eqn:Hc1; simpl; [done|].
  destruct (cs >? 850) eqn:Hc2; simpl; [done|].
  destruct (ag <? 18) eqn:Ha1; simpl; [done|].
  destruct (ag >? 100) eqn:Ha2; simpl; [done|].
  intros _. rewrite Z.gtb_ltb in Hc2, Ha2.
  apply Z.ltb_ge in Hc1, Hc2, Ha1, Ha2.
  split_and!; [done| |]; apply andb_true_iff; split; apply Z.leb_le; lia.
Qed.

Lemma validate_user_data_rejects (row : Row) :
  int_within 300 850 (get row "credit_score" (VInt 0)) = false \/
  int_within 18 100 (get row "age" (VInt 0)) = false \/
  trimmed_email_has_at row = false ->
  validate_user_data row = None.
Proof.
  intros H. unfold validate_user_data.
  destruct (validate_body row) as [user|] eqn:Hv; [|done].
  apply validate_body_accepts in Hv as (He & Hc & Ha).
  destruct H as [H|[H|H]]; congruence.
Qed.

(** C5: a row whose credit score does not parse as an integer of
    [300, 850], or whose age does not parse as an integer of [18, 100], or
    whose trimmed email has no ['@'], is rejected: [validate_user_data]
    returns [None], never a record. *)
Theorem validate_rejects_out_of_range (row : Row) :
  int_within 300 850 (get row "credit_score" (VInt 0)) = false \/
  int_within 18 100 (get row "age" (VInt 0)) = false \/
  trimmed_email_has_at row = false ->
  validate_user_data row = None /\
  (forall user, validate_body row <> Return user).
Proof.
  intros H. pose proof (validate_user_data_rejects row H) as Hn.
  split; [done|]. intros user Hu. unfold validate_user_data in Hn.
  by rewrite Hu in Hn.
Qed.

(** C10: a row without the key [credit_score], and likewise a row without
    the key [age], is rejected: the missing value is read as the integer
    [0], which is below both ranges. *)
Theorem validate_requires_credit_score_and_age (row : Row) :
  (row !! "credit_score" = None ->
     py_int (get row "credit_score" (VInt 0)) = Return 0 /\
     int_within 300 850 (get row "credit_score" (VInt 0)) = false /\
     validate_user_data row = None) /\
  (row !! "age" = None ->
     py_int (get row "age" (VInt 0)) = Return 0 /\
     int_within 18 100 (get row "age" (VInt 0)) = false /\
     validate_user_data row = None).
Proof.
  split; intros H.
  - assert (int_within 300 850 (get row "credit_score" (VInt 0)) = false) as Hw
      by (unfold int_within, get; rewrite H; done).
    split_and!; [unfold get; rewrite H; done|done|].
    apply validate_user_data_rejects; auto.
  - assert (int_within 18 100 (get row "age" (VInt 0)) = false) as Hw
      by (unfold int_within, get; rewrite H; done).
    split_and!; [unfold get; rewrite H; done|done|].
    apply validate_user_data_rejects; auto.
Qed.

(** *** The scan of the rows *)

Lemma scan_fold_total (rows : list Row) (st : Scan) :
  scan_total (fold_left scan_row rows st) = (scan_total st + length rows)%nat.
Proof.
  revert st. induction rows as [|row rows IH]; intros st; simpl; [lia|].
  rewrite IH. unfold scan_row. destruct (validate_user_data row); simpl; lia.
Qed.

Lemma scan_fold_users_data (rows : list Row) (st : Scan) :
  users_data (fold_left scan_row rows st)
  = users_data st ++ omap validate_user_data rows.
Proof.
  revert st. induction rows as [|row rows IH]; intros st; simpl.
  - by rewrite app_nil_r.
  - rewrite IH. unfold scan_row.
    destruct (validate_user_data row); simpl; [by rewrite <- app_assoc|done].
Qed.

Lemma scan_fold_partition (rows : list Row) (st : Scan) :
  (length (users_data (fold_left scan_row rows st))
   + invalid_records (fold_left scan_row rows st)
   = length (users_data st) + invalid_records st + length rows)%nat.
Proof.
  revert st. induction rows as [|row rows IH]; intros st; simpl; [lia|].
  rewrite IH. unfold scan_row.
  destruct (validate_user_data row); simpl; [rewrite length_app; simpl|]; lia.
Qed.

Lemma scan_fold_errors_grow (rows : list Row) (st : Scan) :
  exists more, scan_errors (fold_left scan_row rows st) = scan_errors st ++ more.
Proof.
  revert st. induction rows as [|row rows IH]; intros st; simpl.
  - exists []. by rewrite app_nil_r.
  - destruct (IH (scan_row st row)) as [more ->]. unfold scan_row.
    destruct (validate_user_data row); simpl; [eauto|].
    rewrite <- app_assoc. eauto.
Qed.

Lemma scan_rows_total (rows : list Row) :
  scan_total (scan_rows rows) = length rows.
Proof. unfold scan_rows. by rewrite scan_fold_total. Qed.

Lemma scan_rows_users_data (rows : list Row) :
  users_data (scan_rows rows) = omap validate_user_data rows.
Proof. unfold scan_rows. by rewrite scan_fold_users_data. Qed.

Lemma scan_rows_partition (rows : list Row) :
  (length (users_data (scan_rows rows)) + invalid_records (scan_rows rows)
   = length rows)%nat.
Proof. unfold scan_rows. by rewrite scan_fold_partition. Qed.

Lemma scan_rows_snoc (rows : list Row) (row : Row) :
  scan_rows (rows ++ [row]) = scan_row (scan_rows rows) row.
Proof. unfold scan_rows. by rewrite fold_left_app. Qed.

(** *** The batch upsert *)

Variable E : Env.

Lemma insert_loop_spec (batch : list UserRecord) :
  forall (i s f : nat) (errs : list string) (t : Txn),
  exists (s' f' : nat) (errs' : list string) (t' : Txn),
    insert_loop E i batch s f errs t = (Return (s', f', errs'), t') /\
    (s' + f' = s + f + length batch)%nat /\
    now t' = now t /\
    csv_uploads (working t') = csv_uploads (working t) /\
    next_upload_id (working t') = next_upload_id (working t) /\
    txns (working t') = txns (working t) /\
    calls (working t') = calls (working t) ++ map (fun u => CExecute (email u)) batch /\
    aborted t' = aborted t || negb (accepts_all E i batch) /\
    s' = (s + if aborted t then 0 else accepted_prefix E i batch)%nat /\
    (aborted t' = false ->
       users (working t') = upsert_all (now t) batch (users (working t))) /\
    (exists more, errs' = errs ++ more /\ length more = (f' - f)%nat).
Proof.
  induction batch as [|user rest IH]; intros i s f errs t.
  - exists s, f, errs, t. simpl. rewrite app_nil_r, orb_false_r.
    split_and!; try done; try lia.
    + destruct (aborted t); lia.
    + exists []. rewrite app_nil_r. split; [done|simpl; lia].
  - cbn [insert_loop]. unfold execute_upsert.
    assert (aborted (tx_log (CExecute (email user)) t) = aborted t) as -> by done.
    destruct (aborted t) eqn:Hab; [|destruct (store_fault E i user) as [msg|] eqn:Hf];
      match goal with
      | |- context [insert_loop E ?i' rest ?s0 ?f0 ?e0 ?t0] =>
          destruct (IH i' s0 f0 e0 t0)
            as (s' & f' & errs' & t' & Heq & Hsum & Hnow & Hup & Hid & Htx
                & Hcalls & Hab' & Hs & Hu & more & Herr & Hlen)
      end;
      exists s', f', errs', t'; cbn [accepts_all accepted_prefix];
      rewrite ?Hf; simpl in *; rewrite ?Hab in *; simpl in *;
      (split_and!; try done; try lia; try congruence;
       try (by rewrite Hcalls, <- app_assoc);
       try (intros; congruence);
       try (eexists; rewrite Herr, <- app_assoc; split; [done|];
            rewrite ?length_app; simpl; lia)).
    all: try (rewrite Hab'; done).
    all: eauto.
Qed.

Lemma insert_users_batch_spec (batch : list UserRecord) (w : World) :
  exists (s f : nat) (errs : list string) (w' : World),
    insert_users_batch E batch w = (Return (s, f, errs), w') /\
    (s + f = length batch)%nat /\
    s = accepted_prefix E 0 batch /\
    length errs = f /\
    users w' = (if accepts_all E 0 batch
                then upsert_all (CURRENT_TIMESTAMP E (txns w)) batch (users w)
                else users w) /\
    csv_uploads w' = csv_uploads w /\
    next_upload_id w' = next_upload_id w /\
    txns w' = S (txns w) /\
    calls w' = calls w ++ CInsertUsersBatch (length batch)
                           :: map (fun u => CExecute (email u)) batch.
Proof.
  unfold insert_users_batch, get_db_cursor, mbind, M_bind, log. simpl.
  match goal with
  | |- context [insert_loop E ?i batch ?s0 ?f0 ?e0 ?t0] =>
      destruct (insert_loop_spec batch i s0 f0 e0 t0)
        as (s' & f' & errs' & t' & Heq & Hsum & Hnow & Hup & Hid & Htx
            & Hcalls & Hab' & Hs & Hu & more & Herr & Hlen)
  end.
  rewrite Heq. exists s', f', errs', (commit
    {| users := users w; csv_uploads := csv_uploads w;
       next_upload_id := next_upload_id w; txns := txns w;
       calls := calls w ++ [CInsertUsersBatch (length batch)] |} t').
  simpl in *. subst errs'. simpl. unfold commit, rollback. simpl.
  destruct (accepts_all E 0 batch); simpl in *; rewrite Hab'; simpl;
    rewrite ?Hcalls, <- ?app_assoc; simpl;
    (split_and!; try done; try lia; auto).
Qed.

(** One refused statement undoes the batch: the table is left as it was,
    and the success count is the number of records before the refusal. *)
Lemma insert_users_batch_all_or_nothing (batch : list UserRecord) (w : World) :
  accepts_all E 0 batch = false ->
  users (insert_users_batch E batch w).2 = users w /\
  exists (f : nat) (errs : list string),
    (insert_users_batch E batch w).1
    = Return (accepted_prefix E 0 batch, f, errs) /\
    (0 < f)%nat.
Proof.
  intros Hacc.
  destruct (insert_users_batch_spec batch w)
    as (s & f & errs & w' & -> & Hsum & -> & _ & Hu & _).
  rewrite Hacc in Hu. split; [done|]. exists f, errs. split; [done|].
  assert (accepted_prefix E 0 batch < length batch)%nat; [|simpl in *; lia].
  clear -Hacc. generalize dependent 0%nat.
  induction batch as [|u rest IH]; intros i Hacc; simpl in *; [done|].
  destruct (store_fault E i u); [lia|]. specialize (IH _ Hacc). lia.
Qed.

(** *** The orchestrator *)

Lemma process_csv_file_fetch_fails (bucket key : string) (w : World) (e : exn) :
  get_object E bucket key = Raise e ->
  process_csv_file E bucket key w = (Raise e, (log (CGetObject bucket key) w).2).
Proof.
  intros H. unfold process_csv_file, download, mbind, M_bind. simpl.
  by rewrite H.
Qed.

Lemma process_csv_file_parse_fails (bucket key : string) (w : World)
    (csv_content : string) (e : exn) :
  get_object E bucket key = Return csv_content ->
  DictReader csv_content = Raise e ->
  process_csv_file E bucket key w = (Raise e, (log (CGetObject bucket key) w).2).
Proof.
  intros H1 H2. unfold process_csv_file, download, read_rows, mbind, M_bind. simpl.
  rewrite H1. simpl. by rewrite H2.
Qed.

Lemma process_csv_file_spec (bucket key : string) (w : World)
    (csv_content : string) (rows : list Row) :
  get_object E bucket key = Return csv_content ->
  DictReader csv_content = Return rows ->
  let st := scan_rows rows in
  exists (p f : nat) (db_errors : list string) (w' : World),
    process_csv_file E bucket key w
    = (Return (length rows, p, f, scan_errors st ++ db_errors), w') /\
    p = accepted_prefix E 0 (users_data st) /\
    f = (invalid_records st + (length (users_data st) - p))%nat /\
    length rows = (p + f)%nat /\
    length db_errors = (length (users_data st) - p)%nat /\
    users w' = (if accepts_all E 0 (users_data st)
                then upsert_all (CURRENT_TIMESTAMP E (txns w)) (users_data st) (users w)
                else users w) /\
    csv_uploads w' = csv_uploads w /\
    next_upload_id w' = next_upload_id w /\
    txns w' = (match users_data st with [] => txns w | _ :: _ => S (txns w) end) /\
    calls w' = calls w ++ CGetObject bucket key :: map CValidate rows
               ++ match users_data st with
                  | [] => []
                  | _ :: _ => CInsertUsersBatch (length (users_data st))
                              :: map (fun u => CExecute (email u)) (users_data st)
                  end.
Proof.
  intros H1 H2 st. unfold process_csv_file, download, read_rows, mbind, M_bind.
  simpl. rewrite H1. simpl. rewrite H2. simpl. fold st.
  pose proof (scan_rows_partition rows) as Hpart. fold st in Hpart.
  pose proof (scan_rows_total rows) as Htot. fold st in Htot.
  destruct (users_data st) as [|u us] eqn:Hud.
  - simpl. exists 0%nat, (length rows), [], (log_all (map CValidate rows) (log (CGetObject bucket key) w).2).2.
    rewrite app_nil_r, Htot. simpl in *.
    split_and!; try done; try lia.
    by rewrite <- app_assoc, app_nil_r.
  - match goal with
    | |- context [insert_users_batch E ?b ?w0] =>
        destruct (insert_users_batch_spec b w0)
          as (s' & f' & errs' & w' & Heq & Hsum & Hs & Hlen & Hu & Hup & Hid & Htx & Hcalls)
    end.
    rewrite Heq. simpl. exists s', (invalid_records st + f')%nat, errs', w'.
    rewrite Htot. simpl in *.
    split_and!; try done; try lia.
    rewrite Hcalls, <- !app_assoc. done.
Qed.

(** *** The lifecycle statements and the notifier *)

Lemma create_csv_upload_record_spec (name key : string) (w : World) :
  create_csv_upload_record E name key w
  = (Return (next_upload_id w),
     {| users := users w;
        csv_uploads := csv_uploads w
          ++ [pending_upload (next_upload_id w) (CURRENT_TIMESTAMP E (txns w)) name key];
        next_upload_id := next_upload_id w + 1;
        txns := S (txns w);
        calls := calls w |}).
Proof. reflexivity. Qed.

Lemma update_csv_upload_status_spec (id : Z) (st : string)
    (t p f : option nat) (err : option string) (w : World) :
  update_csv_upload_status E id st t p f err w
  = (Return tt,
     {| users := users w;
        csv_uploads := update_where id
          (set_fields (CURRENT_TIMESTAMP E (txns w)) st t p f err) (csv_uploads w);
        next_upload_id := next_upload_id w;
        txns := S (txns w);
        calls := calls w |}).
Proof. reflexivity. Qed.

Lemma trigger_matching_workflow_spec (bucket key : string) (w : World) :
  exists posts : list call,
    trigger_matching_workflow E bucket key w
    = (Return tt,
       {| users := users w; csv_uploads := csv_uploads w;
          next_upload_id := next_upload_id w; txns := txns w;
          calls := calls w ++ CTrigger bucket key :: posts |}) /\
    (posts = [] \/ exists url, posts = [CPost url]).
Proof.
  unfold trigger_matching_workflow, mbind, M_bind, log. simpl.
  destruct (N8N_WEBHOOK_URL E) as [url|]; simpl.
  - destruct (nonempty url); simpl.
    + exists [CPost url]. rewrite <- app_assoc. simpl.
      destruct (requests_post E url); simpl; eauto.
    + exists []. eauto.
  - exists []. eauto.
Qed.

Lemma update_where_recorded (id : Z) (g : UploadRow -> UploadRow)
    (table : list UploadRow) (P : UploadRow -> Prop) :
  (forall r, upload_id (g r) = upload_id r) ->
  (forall r, P (g r)) ->
  forall up, up ∈ update_where id g table -> upload_id up = id -> P up.
Proof.
  intros Hid HP up Hin Hup. unfold update_where in Hin.
  apply list_elem_of_fmap in Hin as (r & -> & Hr).
  destruct (decide (upload_id r = id)); [apply HP|done].
Qed.

Lemma update_where_keeps (id : Z) (g : UploadRow -> UploadRow)
    (table : list UploadRow) :
  (forall r, upload_id (g r) = upload_id r) ->
  (exists up, up ∈ table /\ upload_id up = id) ->
  exists up, up ∈ update_where id g table /\ upload_id up = id.
Proof.
  intros Hid (r & Hr & Hrid). exists (g r). split; [|by rewrite Hid].
  unfold update_where. apply list_elem_of_fmap. exists r.
  split; [|done]. by destruct (decide (upload_id r = id)).
Qed.

(** One run of [handler] on a well-formed event, step by step. *)
Lemma handler_run (bucket key : string) (rest : Event) (w : World) :
  handler E ((bucket, key) :: rest) w =
  let id := next_upload_id w in
  match process_csv_file E bucket key
          (create_csv_upload_record E (basename key) key w).2 with
  | (Return (t, p, f, errs), w2) =>
      (Return {| statusCode := 200; body := Processed id t p f |},
       (trigger_matching_workflow E bucket key
          (update_csv_upload_status E id "completed"
             (Some t) (Some p) (Some f) (error_summary errs) w2).2).2)
  | (Raise e, w2) =>
      (Return {| statusCode := 500; body := Failed (str_exn e) |},
       (update_csv_upload_status E id "failed" None None None
          (Some (str_exn e)) w2).2)
  end.
Proof.
  unfold handler, try_except, mbind, M_bind, mret, M_ret, raise.
  rewrite create_csv_upload_record_spec. cbn [snd fst].
  cbv zeta.
  destruct (process_csv_file E bucket key _) as [[[[[t p] f] errs]|e] w2].
  - rewrite update_csv_upload_status_spec. cbn [snd].
    match goal with
    | |- context [trigger_matching_workflow E bucket key ?w0] =>
        destruct (trigger_matching_workflow_spec bucket key w0) as (posts & -> & _)
    end.
    done.
  - rewrite update_csv_upload_status_spec. reflexivity.
Qed.

Lemma process_csv_file_frame (bucket key : string) (w : World) :
  csv_uploads (process_csv_file E bucket key w).2 = csv_uploads w /\
  next_upload_id (process_csv_file E bucket key w).2 = next_upload_id w.
Proof.
  destruct (get_object E bucket key) as [csv_content|e] eqn:Hg.
  - destruct (DictReader csv_content) as [rows|e] eqn:Hd.
    + destruct (process_csv_file_spec bucket key w csv_content rows Hg Hd)
        as (p & f & db & w' & -> & _ & _ & _ & _ & _ & Hup & Hid & _).
      done.
    + by rewrite (process_csv_file_parse_fails bucket key w csv_content e).
  - by rewrite (process_csv_file_fetch_fails bucket key w e).
Qed.

Lemma set_fields_upload_id (now : Z) (st : string) (t p f : option nat)
    (err : option string) (r : UploadRow) :
  upload_id (set_fields now st t p f err r) = upload_id r.
Proof. reflexivity. Qed.

(** What [handler] leaves in [csv_uploads] for the batch of the run. *)
Lemma handler_records (bucket key : string) (rest : Event) (w : World) :
  let w1 := (create_csv_upload_record E (basename key) key w).2 in
  match process_csv_file E bucket key w1 with
  | (Return (t, p, f, errs), w2) =>
      recorded (handler E ((bucket, key) :: rest) w).2 (next_upload_id w)
        (fun up => exists r,
           up = set_fields (CURRENT_TIMESTAMP E (txns w2)) "completed"
                  (Some t) (Some p) (Some f) (error_summary errs) r)
  | (Raise e, w2) =>
      recorded (handler E ((bucket, key) :: rest) w).2 (next_upload_id w)
        (fun up => exists r,
           up = set_fields (CURRENT_TIMESTAMP E (txns w2)) "failed"
                  None None None (Some (str_exn e)) r)
  end.
Proof.
  intros w1. rewrite handler_run. fold w1. cbv zeta.
  pose proof (process_csv_file_frame bucket key w1) as [Hup _].
  assert (exists up, up ∈ csv_uploads w1 /\ upload_id up = next_upload_id w) as Hex.
  { unfold w1. rewrite create_csv_upload_record_spec. simpl.
    eexists. split; [apply elem_of_app; right; apply list_elem_of_singleton; done|done]. }
  destruct (process_csv_file E bucket key w1) as [[[[[t p] f] errs]|e] w2];
    cbn [snd] in Hup; rewrite <- Hup in Hex.
  - rewrite update_csv_upload_status_spec. cbn [snd].
    match goal with
    | |- context [trigger_matching_workflow E bucket key ?w0] =>
        destruct (trigger_matching_workflow_spec bucket key w0) as (posts & -> & _)
    end.
    split; simpl.
    + apply update_where_keeps; [apply set_fields_upload_id|done].
    + intros up Hin Hid. unfold update_where in Hin.
      apply list_elem_of_fmap in Hin as (r & -> & Hr).
      destruct (decide (upload_id r = next_upload_id w)); [eauto|done].
  - rewrite update_csv_upload_status_spec.
    split; simpl.
    + apply update_where_keeps; [apply set_fields_upload_id|done].
    + intros up Hin Hid. unfold update_where in Hin.
      apply list_elem_of_fmap in Hin as (r & -> & Hr).
      destruct (decide (upload_id r = next_upload_id w)); [eauto|done].
Qed.

Lemma recorded_weaken (w : World) (id : Z) (P Q : UploadRow -> Prop) :
  (forall up, P up -> Q up) -> recorded w id P -> recorded w id Q.
Proof. intros H [Hex Hall]. split; [done|]. intros up Hin Hid. eauto. Qed.

(** C1: when [process_csv_file] returns and [handler] finalizes the batch,
    the persisted counts satisfy [total = processed + failed]: [total] is
    the number of data rows, [processed] the success count of
    [insert_users_batch] and [failed] the number of rejected rows plus the
    failure count of [insert_users_batch]. *)
Theorem finalized_counts_add_up (bucket key : string) (rest : Event) (w : World)
    (total processed failed : nat) (errors : list string) (w2 : World) :
  process_csv_file E bucket key (create_csv_upload_record E (basename key) key w).2
  = (Return (total, processed, failed, errors), w2) ->
  total = (processed + failed)%nat /\
  (exists (csv_content : string) (rows : list Row) (failed_count : nat),
     get_object E bucket key = Return csv_content /\
     DictReader csv_content = Return rows /\
     total = length rows /\
     failed = (invalid_records (scan_rows rows) + failed_count)%nat /\
     forall w0, exists db_errors w0',
       insert_users_batch E (users_data (scan_rows rows)) w0
       = (Return (processed, failed_count, db_errors), w0')) /\
  recorded (handler E ((bucket, key) :: rest) w).2 (next_upload_id w)
    (fun up => status up = "completed" /\
               total_records up = Some total /\
               processed_records up = Some processed /\
               failed_records up = Some failed).
Proof.
  intros Hrun.
  pose proof (handler_records bucket key rest w) as Hrec.
  cbv zeta in Hrec. rewrite Hrun in Hrec.
  set (w1 := (create_csv_upload_record E (basename key) key w).2) in *.
  destruct (get_object E bucket key) as [csv_content|e] eqn:Hg;
    [|by rewrite (process_csv_file_fetch_fails bucket key w1 e) in Hrun].
  destruct (DictReader csv_content) as [rows|e] eqn:Hd;
    [|by rewrite (process_csv_file_parse_fails bucket key w1 csv_content e) in Hrun].
  destruct (process_csv_file_spec bucket key w1 csv_content rows Hg Hd)
    as (p & f & db & w' & Heq & Hp & Hf & Hsum & Hdb & _).
  rewrite Heq in Hrun. injection Hrun as <- <- <- <- <-.
  split_and!.
  - done.
  - exists csv_content, rows, (length (users_data (scan_rows rows)) - p)%nat.
    split_and!; try done.
    intros w0.
    destruct (insert_users_batch_spec (users_data (scan_rows rows)) w0)
      as (s' & f' & errs' & w0' & -> & Hsum' & Hs' & _).
    exists errs', w0'.
    assert (s' = p) as -> by congruence.
    assert (f' = length (users_data (scan_rows rows)) - p)%nat as -> by lia.
    done.
  - eapply recorded_weaken; [|exact Hrec].
    intros up [r ->]. done.
Qed.

(** C6, as amended: when the payload cannot be fetched, the failure of
    [process_csv_file] reaches [handler], which records the batch as
    ['failed'] with [str(e)], the text of the error, as its error message,
    whatever that text is, and answers 500 with the same text; no row is
    validated and no upsert is attempted: the only call of the run is the
    fetch, and [users] is left as it was. *)
Theorem fetch_failure_is_recorded_and_propagated (bucket key : string)
    (rest : Event) (w : World) (e : exn) :
  get_object E bucket key = Raise e ->
  (process_csv_file E bucket key
     (create_csv_upload_record E (basename key) key w).2).1 = Raise e /\
  (handler E ((bucket, key) :: rest) w).1
  = Return {| statusCode := 500; body := Failed (str_exn e) |} /\
  recorded (handler E ((bucket, key) :: rest) w).2 (next_upload_id w)
    (fun up => status up = "failed" /\ error_message up = Some (str_exn e)) /\
  users (handler E ((bucket, key) :: rest) w).2 = users w /\
  new_calls w (handler E ((bucket, key) :: rest) w).2 = [CGetObject bucket key].
Proof.
  intros Hg.
  pose proof (handler_records bucket key rest w) as Hrec.
  cbv zeta in Hrec. rewrite handler_run in Hrec |- *. cbv zeta in Hrec |- *.
  set (w1 := (create_csv_upload_record E (basename key) key w).2) in *.
  rewrite (process_csv_file_fetch_fails bucket key w1 e Hg) in *.
  split_and!; try done.
  - eapply recorded_weaken; [|exact Hrec]. by intros up [r ->].
  - unfold new_calls. simpl. by rewrite drop_app_length.
Qed.

(** C9: a payload without data rows gives [total = 0], [processed = 0],
    [failed = 0]; [insert_users_batch] is not called, no statement reaches
    [users], and the batch is finalized as ['completed']. *)
Theorem empty_payload_completes (bucket key : string) (rest : Event) (w : World)
    (csv_content : string) :
  get_object E bucket key = Return csv_content ->
  DictReader csv_content = Return [] ->
  (process_csv_file E bucket key
     (create_csv_upload_record E (basename key) key w).2).1
  = Return (0, 0, 0, [])%nat /\
  (handler E ((bucket, key) :: rest) w).1
  = Return {| statusCode := 200; body := Processed (next_upload_id w) 0 0 0 |} /\
  recorded (handler E ((bucket, key) :: rest) w).2 (next_upload_id w)
    (fun up => status up = "completed" /\
               total_records up = Some 0%nat /\
               processed_records up = Some 0%nat /\
               failed_records up = Some 0%nat) /\
  users (handler E ((bucket, key) :: rest) w).2 = users w /\
  filter (fun c => is_upsert c = true)
    (new_calls w (handler E ((bucket, key) :: rest) w).2) = [] /\
  txns (handler E ((bucket, key) :: rest) w).2 = (txns w + 2)%nat.
Proof.
  intros Hg Hd.
  pose proof (handler_records bucket key rest w) as Hrec.
  cbv zeta in Hrec. rewrite handler_run in Hrec |- *. cbv zeta in Hrec |- *.
  set (w1 := (create_csv_upload_record E (basename key) key w).2) in *.
  assert (process_csv_file E bucket key w1
          = (Return (0, 0, 0, [])%nat,
             (log (CGetObject bucket key) w1).2)) as Hrun.
  { unfold process_csv_file, download, read_rows, mbind, M_bind. simpl.
    rewrite Hg. simpl. rewrite Hd. simpl. unfold log_all. simpl.
    by rewrite app_nil_r. }
  rewrite Hrun in *.
  split_and!; try done.
  - eapply recorded_weaken; [|exact Hrec].
    intros up [r ->]. done.
  - rewrite update_csv_upload_status_spec. cbn [snd].
    match goal with
    | |- context [trigger_matching_workflow E bucket key ?w0] =>
        destruct (trigger_matching_workflow_spec bucket key w0) as (posts & -> & _)
    end.
    done.
  - rewrite update_csv_upload_status_spec. cbn [snd].
    match goal with
    | |- context [trigger_matching_workflow E bucket key ?w0] =>
        destruct (trigger_matching_workflow_spec bucket key w0)
          as (posts & -> & Hposts)
    end.
    unfold new_calls. simpl. rewrite <- app_assoc, drop_app_length.
    destruct Hposts as [->|[url ->]]; done.
  - rewrite update_csv_upload_status_spec. cbn [snd].
    match goal with
    | |- context [trigger_matching_workflow E bucket key ?w0] =>
        destruct (trigger_matching_workflow_spec bucket key w0) as (posts & -> & _)
    end.
    simpl. lia.
Qed.

End Properties.

(** *** The notifier *)

Section Notifier.
Context `{B : Builtins}.

Lemma filter_none {A : Type} (P : A -> bool) (l : list A) :
  Forall (fun x => P x = false) l -> filter (fun x => P x = true) l = [].
Proof.
  induction 1 as [|x l Hx _ IH]; [done|].
  rewrite filter_cons. case_decide; [congruence|done].
Qed.

Lemma filter_all {A : Type} (P : A -> bool) (l : list A) :
  Forall (fun x => P x = true) l -> filter (fun x => P x = true) l = l.
Proof.
  induction 1 as [|x l Hx _ IH]; [done|].
  rewrite filter_cons. case_decide; [by rewrite IH|done].
Qed.

Lemma insert_loop_webhook (E : Env) (url : option string) (post : string -> result Z)
    (batch : list UserRecord) :
  forall i s f errs t,
    insert_loop (with_webhook url post E) i batch s f errs t
    = insert_loop E i batch s f errs t.
Proof.
  induction batch as [|user rest IH]; intros i s f errs t; [done|].
  cbn [insert_loop]. unfold execute_upsert. simpl.
  destruct (aborted t); [apply IH|].
  destruct (store_fault E i user); apply IH.
Qed.

Lemma process_csv_file_webhook (E : Env) (url : option string)
    (post : string -> result Z) (bucket key : string) (w : World) :
  process_csv_file (with_webhook url post E) bucket key w
  = process_csv_file E bucket key w.
Proof.
  unfold process_csv_file, download, read_rows, insert_users_batch, get_db_cursor,
    mbind, M_bind. simpl.
  destruct (get_object E bucket key) as [csv_content|e]; simpl; [|done].
  destruct (DictReader csv_content) as [rows|e]; simpl; [|done].
  destruct (users_data (scan_rows rows)) as [|u us]; [done|].
  rewrite insert_loop_webhook. done.
Qed.

(** The calls of [process_csv_file] are neither triggers nor posts. *)
Lemma process_csv_file_calls (E : Env) (bucket key : string) (w : World) :
  exists cs, calls (process_csv_file E bucket key w).2 = calls w ++ cs /\
    Forall (fun c => is_trigger c = false) cs /\
    Forall (fun c => is_post c = false) cs.
Proof.
  destruct (get_object E bucket key) as [csv_content|e] eqn:Hg.
  - destruct (DictReader csv_content) as [rows|e] eqn:Hd.
    + destruct (process_csv_file_spec E bucket key w csv_content rows Hg Hd)
        as (p & f & db & w' & -> & _ & _ & _ & _ & _ & _ & _ & _ & Hcalls).
      eexists. split; [exact Hcalls|].
      split; (constructor; [done|]); apply Forall_app;
        (split; [apply Forall_fmap, Forall_true; done|]);
        (destruct (users_data (scan_rows rows)); [done|]);
        (constructor; [done|]); apply Forall_fmap, Forall_true; done.
    + rewrite (process_csv_file_parse_fails E bucket key w csv_content e Hg Hd).
      exists [CGetObject bucket key]. split; [done|]. by split; constructor.
  - rewrite (process_csv_file_fetch_fails E bucket key w e Hg).
    exists [CGetObject bucket key]. split; [done|]. by split; constructor.
Qed.

(** C7: in a run that completes processing, whatever the number of rows
    that failed, [trigger_matching_workflow] is called once and posts at
    most once; and whatever the webhook is or does (no URL configured, a
    network error, any status code), the answer of [handler], the counts in
    it and the tables, the recorded batch among them, are the same. *)
Theorem notifier_runs_once_and_changes_nothing (E : Env) (bucket key : string)
    (rest : Event) (w : World) (url : option string) (post : string -> result Z) :
  let run := handler E ((bucket, key) :: rest) w in
  let run' := handler (with_webhook url post E) ((bucket, key) :: rest) w in
  (run'.1 = run.1 /\
   users run'.2 = users run.2 /\
   csv_uploads run'.2 = csv_uploads run.2) /\
  (forall t p f errs w2,
     process_csv_file E bucket key
       (create_csv_upload_record E (basename key) key w).2
     = (Return (t, p, f, errs), w2) ->
     length (filter (fun c => is_trigger c = true) (new_calls w run.2)) = 1%nat /\
     (length (filter (fun c => is_post c = true) (new_calls w run.2)) <= 1)%nat /\
     run.1 = Return {| statusCode := 200;
                       body := Processed (next_upload_id w) t p f |} /\
     recorded run.2 (next_upload_id w)
       (fun up => status up = "completed" /\
                  total_records up = Some t /\
                  processed_records up = Some p /\
                  failed_records up = Some f)).
Proof.
  intros run run'. split.
  - unfold run, run'. rewrite !handler_run. cbv zeta.
    rewrite process_csv_file_webhook.
    assert (create_csv_upload_record (with_webhook url post E) (basename key) key w
            = create_csv_upload_record E (basename key) key w) as -> by done.
    destruct (process_csv_file E bucket key _) as [[[[[t p] f] errs]|e] w2]; [|done].
    rewrite !update_csv_upload_status_spec. cbn [snd].
    repeat match goal with
    | |- context [trigger_matching_workflow ?E0 bucket key ?w0] =>
        destruct (trigger_matching_workflow_spec E0 bucket key w0) as (? & -> & _)
    end.
    done.
  - intros t p f errs w2 Hrun.
    pose proof (handler_records E bucket key rest w) as Hrec.
    pose proof (process_csv_file_calls E bucket key
                  (create_csv_upload_record E (basename key) key w).2)
      as (cs & Hcs & Htr & Hpo).
    cbv zeta in Hrec. unfold run. rewrite handler_run in Hrec |- *.
    cbv zeta in Hrec |- *. rewrite Hrun in *. cbn [snd] in Hcs.
    rewrite create_csv_upload_record_spec in Hcs. cbn [snd calls] in Hcs.
    rewrite update_csv_upload_status_spec in Hrec |- *. cbn [snd] in Hrec |- *.
    match goal with
    | |- context [trigger_matching_workflow E bucket key ?w0] =>
        destruct (trigger_matching_workflow_spec E bucket key w0)
          as (posts & Htrig & Hposts)
    end.
    rewrite Htrig in Hrec |- *. cbn [fst snd calls] in Hrec |- *.
    unfold new_calls. cbn [calls snd fst users csv_uploads].
    rewrite Hcs, <- app_assoc, drop_app_length.
    rewrite !filter_app, !filter_cons, !(filter_none _ cs) by done.
    split_and!.
    + destruct Hposts as [->|[u ->]]; done.
    + destruct Hposts as [->|[u ->]]; simpl; lia.
    + done.
    + eapply recorded_weaken; [|exact Hrec].
      intros up [r ->]. done.
Qed.

End Notifier.

(** *** Rejected rows *)

Section Rejections.
Context `{B : Builtins}.

(** C8, as amended: a rejected row is recorded in the errors of the run as
    ["Row <n>: Invalid data"], [n] its position among the data rows counted
    from 1, and is never partially accepted: the records that the run hands
    to [insert_users_batch], the statements it executes and the table
    [users] it leaves are those of the payload without that row. *)
Theorem rejected_row_is_recorded_by_position_and_dropped
    (before after : list Row) (row : Row) :
  validate_user_data row = None ->
  scan_errors (scan_rows (before ++ [row]))
  = scan_errors (scan_rows before)
    ++ ["Row " +:+ str_of_nat (S (length before)) +:+ ": Invalid data"] /\
  invalid_data (S (length before)) ∈ scan_errors (scan_rows (before ++ row :: after)) /\
  users_data (scan_rows (before ++ row :: after))
  = users_data (scan_rows (before ++ after)) /\
  (forall (E : Env) (bucket key csv_content : string) (w : World),
     get_object E bucket key = Return csv_content ->
     DictReader csv_content = Return (before ++ row :: after) ->
     let batch := users_data (scan_rows (before ++ after)) in
     let w' := (process_csv_file E bucket key w).2 in
     users w' = (if accepts_all E 0 batch
                 then upsert_all (CURRENT_TIMESTAMP E (txns w)) batch (users w)
                 else users w) /\
     filter (fun c => is_upsert c = true) (new_calls w w')
     = match batch with
       | [] => []
       | _ :: _ => CInsertUsersBatch (length batch)
                   :: map (fun u => CExecute (email u)) batch
       end).
Proof.
  intros Hrej.
  assert (scan_errors (scan_rows (before ++ [row]))
          = scan_errors (scan_rows before) ++ [invalid_data (S (length before))]) as Hsnoc.
  { rewrite scan_rows_snoc. unfold scan_row. rewrite Hrej. simpl.
    by rewrite scan_rows_total. }
  assert (users_data (scan_rows (before ++ row :: after))
          = users_data (scan_rows (before ++ after))) as Hsame.
  { rewrite !scan_rows_users_data, !omap_app. simpl. by rewrite Hrej. }
  split_and!.
  - exact Hsnoc.
  - replace (before ++ row :: after) with ((before ++ [row]) ++ after)
      by (by rewrite <- app_assoc).
    unfold scan_rows. rewrite fold_left_app.
    destruct (scan_fold_errors_grow after
      (fold_left scan_row (before ++ [row])
         {| users_data := []; scan_total := 0; invalid_records := 0; scan_errors := [] |}))
      as [more ->].
    fold (scan_rows (before ++ [row])). rewrite Hsnoc.
    apply elem_of_app. left. apply elem_of_app. right.
    by apply list_elem_of_singleton.
  - exact Hsame.
  - intros E bucket key csv_content w Hg Hd batch w'.
    destruct (process_csv_file_spec E bucket key w csv_content _ Hg Hd)
      as (p & f & db & w1 & Heq & _ & _ & _ & _ & Hu & _ & _ & _ & Hcalls).
    unfold w', new_calls. rewrite Heq. cbn [snd]. rewrite Hu, Hcalls, Hsame.
    fold batch. split; [done|].
    rewrite drop_app_length, filter_cons. case_decide; [done|].
    rewrite filter_app, (filter_none is_upsert (map CValidate _))
      by (apply Forall_fmap, Forall_true; done).
    apply (filter_all is_upsert).
    destruct batch as [|u us]; [done|].
    constructor; [done|]. apply Forall_fmap, Forall_true. done.
Qed.

End Rejections.

(** *** Upserts on the natural key *)

Section Upserts.
Context `{B : Builtins}.

Lemma upsert_emails_known (now : Z) (user : UserRecord) (table : list UserRow) :
  email user ∈ emails table -> emails (upsert now user table) = emails table.
Proof.
  induction table as [|r rest IH]; simpl; intros Hin.
  - by apply elem_of_nil in Hin.
  - destruct (decide (row_email r = email user)) as [Heq|Hne]; [done|].
    simpl. f_equal. apply IH.
    apply elem_of_cons in Hin as [Hin|Hin]; [congruence|done].
Qed.

Lemma upsert_emails_new (now : Z) (user : UserRecord) (table : list UserRow) :
  email user ∉ emails table ->
  emails (upsert now user table) = emails table ++ [email user].
Proof.
  induction table as [|r rest IH]; simpl; intros Hin; [done|].
  apply not_elem_of_cons in Hin as [Hne Hin].
  destruct (decide (row_email r = email user)) as [Heq|_]; [congruence|].
  simpl. f_equal. by apply IH.
Qed.

Lemma upsert_NoDup (now : Z) (user : UserRecord) (table : list UserRow) :
  NoDup (emails table) -> NoDup (emails (upsert now user table)).
Proof.
  intros Hnd. destruct (decide (email user ∈ emails table)) as [Hin|Hin].
  - by rewrite upsert_emails_known.
  - rewrite upsert_emails_new by done.
    apply NoDup_app. split_and!; [done| |apply NoDup_singleton].
    intros e He Hs. apply list_elem_of_singleton in Hs. congruence.
Qed.

Lemma upsert_all_NoDup (now : Z) (batch : list UserRecord) (table : list UserRow) :
  NoDup (emails table) -> NoDup (emails (upsert_all now batch table)).
Proof.
  revert table. induction batch as [|user rest IH]; intros table Hnd; [done|].
  simpl. apply IH. by apply upsert_NoDup.
Qed.

(** On a conflict, the upsert replaces the conflicting row in place. *)
Lemma upsert_conflict (now : Z) (user : UserRecord) (table : list UserRow) :
  forall (i : nat) (r : UserRow),
    NoDup (emails table) ->
    table !! i = Some r ->
    row_email r = email user ->
    upsert now user table = <[i := overwrite now user r]> table.
Proof.
  induction table as [|r0 rest IH]; intros i r Hnd Hi Hr; [done|].
  simpl in Hnd. apply NoDup_cons in Hnd as [Hnotin Hnd].
  destruct i as [|i]; simpl in *.
  - injection Hi as ->. by destruct (decide (row_email r = email user)).
  - destruct (decide (row_email r0 = email user)) as [Heq|_].
    + exfalso. apply Hnotin. rewrite Heq, <- Hr.
      apply list_elem_of_fmap. exists r. split; [done|].
      by apply list_elem_of_lookup_2 with i.
    + f_equal. by apply IH.
Qed.

Lemma has_email_lookup (table : list UserRow) (i : nat) (r : UserRow) :
  table !! i = Some r -> has_email (row_email r) table = true.
Proof.
  intros Hi. unfold has_email. apply existsb_exists. exists r.
  split; [|by apply bool_decide_eq_true].
  apply list_elem_of_In. by apply list_elem_of_lookup_2 with i.
Qed.

(** C2, as amended: on the path of [insert_users_batch], an accepted upsert
    of a record whose email is already in [users] replaces that row in
    place: monthly income, credit score, employment status and age are the
    record's, [updated_at] is the transaction's [CURRENT_TIMESTAMP], and
    [created_at] and the other rows stay; the loop counts the record as a
    success, and the batch of that record alone is committed with the
    counts [(1, 0)].  On the path of [lambda_handler] the same conflict
    leaves the table as it is and the statement reports no row; the loop
    counts the row as skipped, and the payload of that row alone is
    committed with no row inserted, one skipped and [users] as it was. *)
Theorem conflict_overwrites_in_batch_and_is_skipped_in_lambda_handler
    (E : Env) (user : UserRecord) (i : nat) (r : UserRow) (w : World) :
  NoDup (emails (users w)) ->
  users w !! i = Some r ->
  row_email r = email user ->
  (forall (k : nat) (t : Txn),
     users (working t) = users w -> aborted t = false ->
     store_fault E k user = None ->
     (exists r',
        (execute_upsert E k user t).1 = Return tt /\
        users (working (execute_upsert E k user t).2) = <[i := r']> (users w) /\
        holds r' user /\
        updated_at r' = now t /\
        created_at r' = created_at r /\
        row_user_id r' = row_user_id r /\
        row_name r' = row_name r) /\
     (forall (rest : list UserRecord) (s f : nat) (errs : list string),
        insert_loop E k (user :: rest) s f errs t
        = insert_loop E (S k) rest (S s) f errs (execute_upsert E k user t).2)) /\
  (store_fault E 0 user = None ->
   (insert_users_batch E [user] w).1 = Return (1, 0, [])%nat /\
   users (insert_users_batch E [user] w).2
   = <[i := overwrite (CURRENT_TIMESTAMP E (txns w)) user r]> (users w)) /\
  (forall (k : nat) (t : Txn) (p : LegacyParams),
     users (working t) = users w -> aborted t = false ->
     lp_email p = VStr (email user) ->
     legacy_fault E k p = None ->
     (execute_insert E k p t).1 = Return 0%nat /\
     users (working (execute_insert E k p t).2) = users w /\
     (forall (row : Row) (rest : list Row) (users_inserted users_skipped : nat),
        legacy_params row = Return p ->
        legacy_loop E k (row :: rest) users_inserted users_skipped t
        = legacy_loop E (S k) rest users_inserted (S users_skipped)
            (execute_insert E k p t).2)) /\
  (forall (row : Row) (p : LegacyParams),
     legacy_params row = Return p ->
     lp_email p = VStr (email user) ->
     legacy_fault E 0 p = None ->
     (connect_and_commit E (legacy_loop E 0 [row] 0 0) w).1 = Return (0, 1)%nat /\
     users (connect_and_commit E (legacy_loop E 0 [row] 0 0) w).2 = users w).
Proof.
  intros Hnd Hi Hr.
  assert (forall (k : nat) (t : Txn) (p : LegacyParams),
            users (working t) = users w -> aborted t = false ->
            lp_email p = VStr (email user) -> legacy_fault E k p = None ->
            execute_insert E k p t
            = (Return 0%nat,
               tx_set_users (users w) (tx_log (CExecuteLegacy (lp_email p)) t)))
    as Hinsert.
  { intros k t p Ht Hab Hp Hf. unfold execute_insert. simpl.
    rewrite Hab, Hf, Hp. simpl. unfold insert_do_nothing.
    rewrite Ht, <- Hr, (has_email_lookup _ i r) by done. done. }
  split_and!.
  - intros k t Ht Hab Hf.
    assert (execute_upsert E k user t
            = (Return tt,
               tx_set_users (<[i := overwrite (now t) user r]> (users w))
                 (tx_log (CExecute (email user)) t))) as Hup.
    { unfold execute_upsert. simpl. rewrite Hab, Hf, Ht.
      by rewrite (upsert_conflict _ _ _ i r). }
    split.
    + exists (overwrite (now t) user r). rewrite Hup. unfold holds. simpl.
      split_and!; done.
    + intros rest s f errs. cbn [insert_loop]. by rewrite Hup.
  - intros Hf.
    destruct (insert_users_batch_spec E [user] w)
      as (s & f & errs & w' & Heq & Hsum & Hs & Hlen & Hu & _).
    rewrite Heq. simpl in *. rewrite Hf in *. simpl in *.
    assert (f = 0%nat) as -> by lia. subst s.
    destruct errs; [|done].
    split; [done|]. rewrite Hu. by apply upsert_conflict.
  - intros k t p Ht Hab Hp Hf. rewrite (Hinsert k t p Ht Hab Hp Hf).
    split_and!; [done|done|].
    intros row rest ins sk Hrow. cbn [legacy_loop].
    by rewrite Hrow, (Hinsert k t p Ht Hab Hp Hf).
  - intros row p Hrow Hp Hf. unfold connect_and_commit.
    cbn [legacy_loop]. rewrite Hrow.
    rewrite (Hinsert 0%nat (begin E w) p eq_refl eq_refl Hp Hf). done.
Qed.

(** *** Reprocessing a payload *)

Lemma find_email_Some (e : string) (table : list UserRow) (r : UserRow) :
  find_email e table = Some r -> r ∈ table /\ row_email r = e.
Proof.
  induction table as [|r0 rest IH]; simpl; [done|].
  destruct (decide (row_email r0 = e)) as [Heq|_].
  - intros [= ->]. split; [apply elem_of_cons; by left|done].
  - intros H. destruct (IH H) as [Hin Hr]. split; [apply elem_of_cons; by right|done].
Qed.

Lemma find_email_None (e : string) (table : list UserRow) :
  find_email e table = None <-> e ∉ emails table.
Proof.
  induction table as [|r0 rest IH]; simpl.
  - split; [intros _; apply not_elem_of_nil|done].
  - destruct (decide (row_email r0 = e)) as [Heq|Hne].
    + split; [done|]. intros H. exfalso. apply H. rewrite Heq.
      apply elem_of_cons. by left.
    + rewrite IH. split.
      * intros H. apply not_elem_of_cons. done.
      * intros H. by apply not_elem_of_cons in H as [_ H].
Qed.

Lemma last_with_email (e : string) (batch : list UserRecord) (user : UserRecord) :
  last_with e batch = Some user -> email user = e /\ user ∈ batch.
Proof.
  induction batch as [|u rest IH]; simpl; [done|].
  destruct (last_with e rest) as [later|].
  - intros [= ->]. destruct (IH eq_refl) as [He Hin].
    split; [done|apply elem_of_cons; by right].
  - destruct (decide (email u = e)) as [Heq|_]; [|done].
    intros [= ->]. split; [done|apply elem_of_cons; by left].
Qed.

Lemma last_with_member (batch : list UserRecord) (user : UserRecord) :
  user ∈ batch -> exists last, last_with (email user) batch = Some last.
Proof.
  induction batch as [|u rest IH]; intros Hin.
  - by apply elem_of_nil in Hin.
  - simpl. destruct (last_with (email user) rest) as [later|] eqn:Hl; [eauto|].
    apply elem_of_cons in Hin as [->|Hin].
    + destruct (decide (email u = email u)); [eauto|done].
    + destruct (IH Hin) as [last Hlast]. congruence.
Qed.

Lemma upsert_find (now : Z) (user : UserRecord) (e : string) (table : list UserRow) :
  find_email e (upsert now user table)
  = if decide (email user = e)
    then Some (match find_email e table with
               | Some r => overwrite now user r
               | None => new_row now user
               end)
    else find_email e table.
Proof.
  induction table as [|r rest IH]; simpl.
  - by destruct (decide (email user = e)).
  - destruct (decide (row_email r = email user)) as [Hr|Hr]; simpl.
    + destruct (decide (email user = e)) as [He|He];
        destruct (decide (row_email r = e)); try congruence; done.
    + rewrite IH.
      destruct (decide (email user = e)) as [He|He];
        destruct (decide (row_email r = e)); try congruence; done.
Qed.

Lemma upsert_all_find (now : Z) (batch : list UserRecord) (e : string) :
  forall table : list UserRow,
    find_email e (upsert_all now batch table)
    = match last_with e batch with
      | Some user => Some (match find_email e table with
                           | Some r => overwrite now user r
                           | None => new_row now user
                           end)
      | None => find_email e table
      end.
Proof.
  induction batch as [|u rest IH]; intros table; [done|].
  simpl. rewrite IH, upsert_find.
  destruct (last_with e rest) as [later|] eqn:Hl.
  - apply last_with_email in Hl as [Hl _].
    destruct (decide (email u = e)) as [He|He]; [|done].
    f_equal. destruct (find_email e table) as [r|]; [done|].
    unfold overwrite, new_row. simpl. f_equal. congruence.
  - by destruct (decide (email u = e)).
Qed.

Lemma upsert_emails_grow (now : Z) (user : UserRecord) (table : list UserRow) (e : string) :
  e ∈ emails table \/ e = email user -> e ∈ emails (upsert now user table).
Proof.
  destruct (decide (email user ∈ emails table)) as [Hin|Hin].
  - rewrite upsert_emails_known by done. intros [H| ->]; done.
  - rewrite upsert_emails_new by done. intros [H| ->]; apply elem_of_app;
      [by left|right; by apply list_elem_of_singleton].
Qed.

Lemma upsert_all_emails_grow (now : Z) (batch : list UserRecord) (e : string) :
  forall table : list UserRow,
    e ∈ emails table \/ (exists user, user ∈ batch /\ email user = e) ->
    e ∈ emails (upsert_all now batch table).
Proof.
  induction batch as [|u rest IH]; intros table H; simpl.
  - destruct H as [H|(user & Hin & _)]; [done|by apply elem_of_nil in Hin].
  - apply IH. destruct H as [H|(user & Hin & He)].
    + left. apply upsert_emails_grow. by left.
    + apply elem_of_cons in Hin as [->|Hin].
      * left. apply upsert_emails_grow. by right.
      * right. eauto.
Qed.

Lemma upsert_all_emails_known (now : Z) (batch : list UserRecord) :
  forall table : list UserRow,
    (forall user, user ∈ batch -> email user ∈ emails table) ->
    emails (upsert_all now batch table) = emails table.
Proof.
  induction batch as [|u rest IH]; intros table H; [done|].
  simpl. rewrite IH.
  - apply upsert_emails_known, H, elem_of_cons. by left.
  - intros user Hin. apply upsert_emails_grow. left.
    apply H, elem_of_cons. by right.
Qed.

(** Two tables with the same distinct emails in the same order, in which
    every email finds the same row but for [updated_at], are the same but
    for [updated_at]. *)
Lemma tables_agree (table1 : list UserRow) :
  forall table2 : list UserRow,
    NoDup (emails table1) ->
    emails table1 = emails table2 ->
    (forall e, but_updated_at <$> find_email e table1
               = but_updated_at <$> find_email e table2) ->
    map but_updated_at table1 = map but_updated_at table2.
Proof.
  induction table1 as [|r1 rest1 IH]; intros [|r2 rest2] Hnd Hem Hfind;
    try done.
  simpl in Hem. injection Hem as Hr Hem.
  simpl in Hnd. apply NoDup_cons in Hnd as [Hnotin Hnd].
  simpl. f_equal.
  - specialize (Hfind (row_email r1)). simpl in Hfind.
    destruct (decide (row_email r1 = row_email r1)); [|done].
    destruct (decide (row_email r2 = row_email r1)); [|congruence].
    cbn in Hfind. congruence.
  - apply IH; [done..|]. intros e. specialize (Hfind e). simpl in Hfind.
    destruct (decide (row_email r1 = e)) as [He|He].
    + subst e. assert (find_email (row_email r1) rest1 = None) as ->
        by (by apply find_email_None).
      assert (find_email (row_email r1) rest2 = None) as ->
        by (apply find_email_None; by rewrite <- Hem).
      done.
    + destruct (decide (row_email r2 = e)); [congruence|done].
Qed.

(** One pass of an accepted batch over a table that a first pass of the
    same batch produced changes [updated_at] only. *)
Lemma upsert_all_twice (now1 now2 : Z) (batch : list UserRecord) (table : list UserRow) :
  NoDup (emails table) ->
  map but_updated_at (upsert_all now2 batch (upsert_all now1 batch table))
  = map but_updated_at (upsert_all now1 batch table).
Proof.
  intros Hnd. apply tables_agree.
  - by do 2 apply upsert_all_NoDup.
  - apply upsert_all_emails_known. intros user Hin.
    apply upsert_all_emails_grow. right. eauto.
  - intros e. rewrite (upsert_all_find now2), (upsert_all_find now1).
    destruct (last_with e batch) as [user|]; [|done].
    destruct (find_email e table); done.
Qed.

(** C3: processing the same payload a second time leaves [users] with the
    rows of the first run: the emails stay distinct, every row is the row
    of the first run but for the refreshed [updated_at], and, the store
    accepting the statements, the row of every email of the payload holds
    the values of the last valid row of the payload with that email. *)
Theorem reprocessing_is_idempotent (E : Env) (bucket key csv_content : string)
    (rows : list Row) (w : World) :
  NoDup (emails (users w)) ->
  get_object E bucket key = Return csv_content ->
  DictReader csv_content = Return rows ->
  let once := (process_csv_file E bucket key w).2 in
  let twice := (process_csv_file E bucket key once).2 in
  NoDup (emails (users twice)) /\
  map but_updated_at (users twice) = map but_updated_at (users once) /\
  (accepts_all E 0 (users_data (scan_rows rows)) = true ->
   forall user, user ∈ users_data (scan_rows rows) ->
     exists r last,
       find_email (email user) (users twice) = Some r /\
       last_with (email user) (users_data (scan_rows rows)) = Some last /\
       holds r last /\
       updated_at r = CURRENT_TIMESTAMP E (txns once)).
Proof.
  intros Hnd Hg Hd. cbv zeta.
  destruct (process_csv_file_spec E bucket key w csv_content rows Hg Hd)
    as (p1 & f1 & db1 & w1 & Heq1 & _ & _ & _ & _ & Hu1 & _).
  rewrite Heq1. cbn [snd].
  destruct (process_csv_file_spec E bucket key w1 csv_content rows Hg Hd)
    as (p2 & f2 & db2 & w2 & Heq2 & _ & _ & _ & _ & Hu2 & _).
  rewrite Heq2. cbn [snd]. rewrite Hu2, Hu1. clear Heq1 Heq2 Hu1 Hu2.
  set (batch := users_data (scan_rows rows)) in *.
  destruct (accepts_all E 0 batch).
  - split_and!.
    + by do 2 apply upsert_all_NoDup.
    + by apply upsert_all_twice.
    + intros _ user Hin.
      destruct (last_with_member batch user Hin) as [last Hlast].
      pose proof (last_with_email _ _ _ Hlast) as [Hle _].
      rewrite upsert_all_find, Hlast.
      eexists _, last. split_and!; [done|done| |].
      * destruct (find_email (email user) _) as [r1|] eqn:Hf.
        -- apply find_email_Some in Hf as [_ Hf].
           unfold holds. simpl. split_and!; try done. congruence.
        -- done.
      * by destruct (find_email (email user) _).
  - split_and!; done.
Qed.

End Upserts.

(** *** The sample deployment *)

Section Runs.
#[local] Existing Instance Plain.builtins.
Import Sample.

Lemma validate_rejects_out_of_range_witness :
  int_within 300 850 (get low_score_row "credit_score" (VInt 0)) = false /\
  validate_user_data low_score_row = None /\
  (forall user, validate_body low_score_row <> Return user).
Proof.
  split; [reflexivity|].
  apply (validate_rejects_out_of_range low_score_row). left. reflexivity.
Defined.

Lemma validate_requires_credit_score_and_age_witness :
  email_only_row !! "credit_score" = None /\
  email_only_row !! "age" = None /\
  validate_user_data email_only_row = None /\
  py_int (get email_only_row "credit_score" (VInt 0)) = Return 0 /\
  py_int (get email_only_row "age" (VInt 0)) = Return 0.
Proof.
  destruct (validate_requires_credit_score_and_age email_only_row) as [Hc Ha].
  assert (email_only_row !! "credit_score" = None) as H1 by reflexivity.
  assert (email_only_row !! "age" = None) as H2 by reflexivity.
  destruct (Hc H1) as (Hc0 & _ & Hrej). destruct (Ha H2) as (Ha0 & _ & _).
  split_and!; assumption.
Defined.

Lemma finalized_counts_add_up_witness :
  process_csv_file env "loans" "uploads/applicants.csv"
    (create_csv_upload_record env (basename "uploads/applicants.csv")
       "uploads/applicants.csv" start).2
  = (Return (4, 2, 2, ["Row 2: Invalid data"; "Row 4: Invalid data"])%nat,
     applicants_processed) /\
  (4 = 2 + 2)%nat /\
  recorded (handler env (event_of "uploads/applicants.csv") start).2 1
    (fun up => status up = "completed" /\
               total_records up = Some 4%nat /\
               processed_records up = Some 2%nat /\
               failed_records up = Some 2%nat).
Proof.
  assert (process_csv_file env "loans" "uploads/applicants.csv"
            (create_csv_upload_record env (basename "uploads/applicants.csv")
               "uploads/applicants.csv" start).2
          = (Return (4, 2, 2, ["Row 2: Invalid data"; "Row 4: Invalid data"])%nat,
             applicants_processed)) as Hrun by reflexivity.
  split; [exact Hrun|].
  destruct (finalized_counts_add_up env "loans" "uploads/applicants.csv" []
              start _ _ _ _ _ Hrun) as (Hsum & _ & Hrec).
  split; [exact Hsum|exact Hrec].
Defined.

Lemma fetch_failure_is_recorded_and_propagated_witness :
  get_object env "loans" "uploads/missing.csv" = Raise no_such_key /\
  (handler env (event_of "uploads/missing.csv") start).1
  = Return {| statusCode := 500; body := Failed (str_exn no_such_key) |} /\
  recorded (handler env (event_of "uploads/missing.csv") start).2 1
    (fun up => status up = "failed" /\
               error_message up = Some (str_exn no_such_key)) /\
  users (handler env (event_of "uploads/missing.csv") start).2 = [] /\
  new_calls start (handler env (event_of "uploads/missing.csv") start).2
  = [CGetObject "loans" "uploads/missing.csv"].
Proof.
  assert (get_object env "loans" "uploads/missing.csv" = Raise no_such_key) as Hg
    by reflexivity.
  destruct (fetch_failure_is_recorded_and_propagated env "loans"
              "uploads/missing.csv" [] start no_such_key Hg)
    as (_ & Hres & Hrec & Hu & Hc).
  split_and!; assumption.
Defined.

Lemma empty_payload_completes_witness :
  get_object env "loans" "uploads/empty.csv" = Return header_only /\
  DictReader header_only = Return [] /\
  (handler env (event_of "uploads/empty.csv") start).1
  = Return {| statusCode := 200; body := Processed 1 0 0 0 |} /\
  recorded (handler env (event_of "uploads/empty.csv") start).2 1
    (fun up => status up = "completed" /\
               total_records up = Some 0%nat /\
               processed_records up = Some 0%nat /\
               failed_records up = Some 0%nat) /\
  users (handler env (event_of "uploads/empty.csv") start).2 = [] /\
  filter (fun c => is_upsert c = true)
    (new_calls start (handler env (event_of "uploads/empty.csv") start).2) = [].
Proof.
  assert (get_object env "loans" "uploads/empty.csv" = Return header_only) as Hg
    by reflexivity.
  assert (DictReader header_only = Return []) as Hd by reflexivity.
  destruct (empty_payload_completes env "loans" "uploads/empty.csv" [] start
              header_only Hg Hd) as (_ & Hres & Hrec & Hu & Hc & _).
  split_and!; assumption.
Defined.

Lemma notifier_runs_once_and_changes_nothing_witness :
  process_csv_file env "loans" "uploads/applicants.csv"
    (create_csv_upload_record env (basename "uploads/applicants.csv")
       "uploads/applicants.csv" start).2
  = (Return (4, 2, 2, ["Row 2: Invalid data"; "Row 4: Invalid data"])%nat,
     applicants_processed) /\
  (handler (with_webhook (Some "https://n8n.example.org/gone") unreachable env)
     (event_of "uploads/applicants.csv") start).1
  = (handler env (event_of "uploads/applicants.csv") start).1 /\
  csv_uploads (handler (with_webhook (Some "https://n8n.example.org/gone") unreachable env)
     (event_of "uploads/applicants.csv") start).2
  = csv_uploads (handler env (event_of "uploads/applicants.csv") start).2 /\
  length (filter (fun c => is_trigger c = true)
            (new_calls start (handler env (event_of "uploads/applicants.csv") start).2))
  = 1%nat.
Proof.
  assert (process_csv_file env "loans" "uploads/applicants.csv"
            (create_csv_upload_record env (basename "uploads/applicants.csv")
               "uploads/applicants.csv" start).2
          = (Return (4, 2, 2, ["Row 2: Invalid data"; "Row 4: Invalid data"])%nat,
             applicants_processed)) as Hrun by reflexivity.
  destruct (notifier_runs_once_and_changes_nothing env "loans"
              "uploads/applicants.csv" [] start
              (Some "https://n8n.example.org/gone") unreachable)
    as ((Hres & _ & Hup) & Honce).
  destruct (Honce _ _ _ _ _ Hrun) as (Hone & _).
  split_and!; assumption.
Defined.

Lemma rejected_row_is_recorded_by_position_and_dropped_witness :
  validate_user_data low_score_row = None /\
  scan_errors (scan_rows ([good_row] ++ [low_score_row])) = ["Row 2: Invalid data"] /\
  users_data (scan_rows ([good_row] ++ low_score_row :: [good_row]))
  = users_data (scan_rows ([good_row] ++ [good_row])).
Proof.
  assert (validate_user_data low_score_row = None) as Hrej by reflexivity.
  destruct (rejected_row_is_recorded_by_position_and_dropped
              [good_row] [good_row] low_score_row Hrej) as (Herr & _ & Hdata & _).
  split_and!; [exact Hrej|exact Herr|exact Hdata].
Defined.

Lemma conflict_overwrites_in_batch_and_is_skipped_in_lambda_handler_witness :
  NoDup (emails (users with_alice)) /\
  users with_alice !! 0%nat = Some stored_alice /\
  row_email stored_alice = email promoted_alice /\
  store_fault env 0 promoted_alice = None /\
  legacy_params Desk.promoted_row = Return promoted_alice_params /\
  (exists r',
     users (working (execute_upsert env 0 promoted_alice (begin env with_alice)).2)
     = <[0%nat := r']> (users with_alice) /\
     holds r' promoted_alice /\
     updated_at r' = 1000 /\
     created_at r' = 7) /\
  (insert_users_batch env [promoted_alice] with_alice).1 = Return (1, 0, [])%nat /\
  users (insert_users_batch env [promoted_alice] with_alice).2
  = [overwrite 1000 promoted_alice stored_alice] /\
  users (working (execute_insert env 0 promoted_alice_params (begin env with_alice)).2)
  = [stored_alice] /\
  legacy_loop env 0 [Desk.promoted_row] 0 0 (begin env with_alice)
  = legacy_loop env 1 [] 0 1
      (execute_insert env 0 promoted_alice_params (begin env with_alice)).2 /\
  (connect_and_commit env (legacy_loop env 0 [Desk.promoted_row] 0 0) with_alice).1
  = Return (0, 1)%nat /\
  users (connect_and_commit env (legacy_loop env 0 [Desk.promoted_row] 0 0) with_alice).2
  = [stored_alice].
Proof.
  assert (NoDup (emails (users with_alice))) as Hnd by (apply NoDup_singleton).
  assert (users with_alice !! 0%nat = Some stored_alice) as Hi by reflexivity.
  assert (row_email stored_alice = email promoted_alice) as Hr by reflexivity.
  assert (store_fault env 0 promoted_alice = None) as Hf by reflexivity.
  assert (legacy_params Desk.promoted_row = Return promoted_alice_params) as Hrow
    by reflexivity.
  destruct (conflict_overwrites_in_batch_and_is_skipped_in_lambda_handler
              env promoted_alice 0 stored_alice with_alice Hnd Hi Hr)
    as (Hup & Hbatch & Hleg & Hpayload).
  destruct (Hup 0%nat (begin env with_alice) eq_refl eq_refl Hf)
    as ((r' & _ & Hu & Hh & Ht & Hc & _) & _).
  destruct (Hbatch Hf) as [Hcount Hstored].
  destruct (Hleg 0%nat (begin env with_alice) promoted_alice_params
              eq_refl eq_refl eq_refl eq_refl) as (_ & Hkeep & Hloop).
  destruct (Hpayload Desk.promoted_row promoted_alice_params Hrow eq_refl eq_refl)
    as [Hskipped Hsame].
  split_and!; try assumption.
  - exists r'. split_and!; assumption.
  - exact (Hloop Desk.promoted_row [] 0%nat 0%nat Hrow).
Defined.

Lemma reprocessing_is_idempotent_witness :
  NoDup (emails (users start)) /\
  get_object env "loans" "uploads/applicants.csv" = Return applicants /\
  DictReader applicants = Return applicant_rows /\
  accepts_all env 0 (users_data (scan_rows applicant_rows)) = true /\
  alice ∈ users_data (scan_rows applicant_rows) /\
  NoDup (emails
    (users (process_csv_file env "loans" "uploads/applicants.csv"
              (process_csv_file env "loans" "uploads/applicants.csv" start).2).2)) /\
  map but_updated_at
    (users (process_csv_file env "loans" "uploads/applicants.csv"
              (process_csv_file env "loans" "uploads/applicants.csv" start).2).2)
  = map but_updated_at
      (users (process_csv_file env "loans" "uploads/applicants.csv" start).2) /\
  (exists r last,
     find_email "a@x.org"
       (users (process_csv_file env "loans" "uploads/applicants.csv"
                 (process_csv_file env "loans" "uploads/applicants.csv" start).2).2)
     = Some r /\
     last_with "a@x.org" (users_data (scan_rows applicant_rows)) = Some last /\
     holds r last /\
     updated_at r = 1001).
Proof.
  assert (NoDup (emails (users start))) as Hnd by apply NoDup_nil_2.
  assert (get_object env "loans" "uploads/applicants.csv" = Return applicants) as Hg
    by reflexivity.
  assert (DictReader applicants = Return applicant_rows) as Hd by reflexivity.
  assert (accepts_all env 0 (users_data (scan_rows applicant_rows)) = true) as Hacc
    by reflexivity.
  assert (alice ∈ users_data (scan_rows applicant_rows)) as Hin
    by (apply list_elem_of_lookup_2 with 0%nat; reflexivity).
  destruct (reprocessing_is_idempotent env "loans" "uploads/applicants.csv"
              applicants applicant_rows start Hnd Hg Hd) as (Hnd2 & Hsame & Hlast).
  destruct (Hlast Hacc alice Hin) as (r & last & Hfind & Hl & Hh & Ht).
  split_and!; try assumption.
  exists r, last. split_and!; assumption.
Defined.

(** C6, as stated, fails: a fetch that raises an error without a text is
    recorded as ['failed'] with the empty text as its error message, and
    the answer carries the same empty text. *)
Lemma fetch_failure_without_text_records_an_empty_message :
  get_object Desk.env_without_text "loans" "uploads/applicants.csv"
  = Raise Desk.without_text /\
  str_exn Desk.without_text = "" /\
  (handler Desk.env_without_text (event_of "uploads/applicants.csv") start).1
  = Return {| statusCode := 500; body := Failed "" |} /\
  csv_uploads (handler Desk.env_without_text (event_of "uploads/applicants.csv") start).2
  = [{| upload_id := 1;
        file_name := "applicants.csv";
        s3_key := "uploads/applicants.csv";
        status := "failed";
        total_records := None;
        processed_records := None;
        failed_records := None;
        error_message := Some "";
        upload_created_at := 1000;
        processed_at := Some 1001 |}].
Proof. split_and!; reflexivity. Qed.

(** C8, as stated, fails: the second data row of [applicants] is rejected
    for its credit score, 200; the error that the run records for it is
    ["Row 2: Invalid data"], which shows neither the field nor the value. *)
Lemma rejection_omits_field_and_value :
  validate_body <$> applicant_rows !! 1%nat
  = Some (Raise (ValueError "Credit score 200 out of range (300-850)")) /\
  (process_csv_file env "loans" "uploads/applicants.csv" start).1
  = Return (4, 2, 2, ["Row 2: Invalid data"; "Row 4: Invalid data"])%nat /\
  error_message <$> csv_uploads (handler env (event_of "uploads/applicants.csv") start).2
  = [Some "Row 2: Invalid data; Row 4: Invalid data"] /\
  carries "credit_score" "200" "Row 2: Invalid data" = false /\
  contains "200" "Row 2: Invalid data; Row 4: Invalid data" = false.
Proof. split_and!; reflexivity. Qed.

(** C2, as stated, fails on the path of [lambda_handler]: with [a@x.org]
    stored, a payload that carries new values for [a@x.org] leaves the
    stored row as it was, [updated_at] included, and counts the row as
    skipped; the same payload through [handler] overwrites the row. *)
Lemma lambda_handler_keeps_the_stored_row :
  legacy_params <$> (match DictReader raise_of_a with
                     | Return rows => rows !! 0%nat
                     | Raise _ => None
                     end)
  = Some (Return promoted_alice_params) /\
  (lambda_handler env (event_of "uploads/raise.csv") with_alice).1
  = Return {| legacy_statusCode := 200;
              legacy_body := Inserted 0 1 "uploads/raise.csv" |} /\
  users (lambda_handler env (event_of "uploads/raise.csv") with_alice).2
  = [stored_alice] /\
  row_monthly_income stored_alice <> lp_monthly_income promoted_alice_params /\
  users (handler env (event_of "uploads/raise.csv") with_alice).2
  = [overwrite 1001 promoted_alice stored_alice].
Proof. split_and!; (reflexivity || discriminate). Qed.

(** C4: the batch [alice; bob; carol], the store refusing the statement of
    [bob].  [insert_users_batch] reports one success and two failures: the
    statement of [carol] fails in the aborted transaction, and the commit
    rolls back the row of [alice], so that [users] is left empty, whereas
    [alice] and [carol] without [bob] are both stored. *)
Theorem batch_failure_rolls_back_and_miscounts :
  (insert_users_batch env [alice; bob; carol] start).1
  = Return (1%nat, 2%nat,
            ["Failed to insert user b@x.org: numeric field overflow";
             "Failed to insert user c@x.org: current transaction is aborted, commands ignored until end of transaction block"]) /\
  users (insert_users_batch env [alice; bob; carol] start).2 = [] /\
  new_calls start (insert_users_batch env [alice; bob; carol] start).2
  = [CInsertUsersBatch 3; CExecute "a@x.org"; CExecute "b@x.org"; CExecute "c@x.org"] /\
  (insert_users_batch env [alice; carol] start).1 = Return (2%nat, 0%nat, []) /\
  emails (users (insert_users_batch env [alice; carol] start).2)
  = ["a@x.org"; "c@x.org"] /\
  (handler env (event_of "uploads/overflowing.csv") start).1
  = Return {| statusCode := 200; body := Processed 1 3 1 2 |} /\
  users (handler env (event_of "uploads/overflowing.csv") start).2 = [].
Proof. split_and!; reflexivity. Qed.

End Runs.

(* ===================================================================== *)
(** ** Further properties *)

(** *** What the validator accepts *)

Section Acceptance.
Context `{B : Builtins}.

Lemma has_at_nonempty (s : string) : has_at s = true -> nonempty s = true.
Proof. by destruct s. Qed.

(** The checks that an accepted row has passed, and the record it gives. *)
Lemma validate_body_inv (row : Row) (user : UserRecord) :
  validate_body row = Return user ->
  str_strip (get row "email" (VStr "")) = Return (email user) /\
  has_at (email user) = true /\
  py_float (get row "monthly_income" (VInt 0)) = Return (monthly_income user) /\
  float_lt_zero (monthly_income user) = false /\
  py_int (get row "credit_score" (VInt 0)) = Return (credit_score user) /\
  300 <= credit_score user <= 850 /\
  py_int (get row "age" (VInt 0)) = Return (age user) /\
  18 <= age user <= 100 /\
  str_strip (get row "employment_status" (VStr "")) = Return (employment_status user).
Proof.
  unfold validate_body.
  destruct (str_strip (get row "email" _)) as [em|]; simpl; [|done].
  destruct (nonempty em) eqn:Hne; simpl; [|done].
  destruct (has_at em) eqn:Hat; simpl; [|done].
  destruct (py_float _) as [inc|]; simpl; [|done].
  destruct (py_int (get row "credit_score" _)) as [cs|]; simpl; [|done].
  destruct (py_int (get row "age" _)) as [ag|]; simpl; [|done].
  destruct (cs <? 300) eqn:Hc1; simpl; [done|].
  destruct (cs >? 850) eqn:Hc2; simpl; [done|].
  destruct (ag <? 18) eqn:Ha1; simpl; [done|].
  destruct (ag >? 100) eqn:Ha2; simpl; [done|].
  destruct (float_lt_zero inc) eqn:Hneg; [done|].
  destruct (str_strip (get row "employment_status" _)) as [st|]; simpl; [|done].
  intros [= <-]. simpl.
  rewrite Z.gtb_ltb in Hc2, Ha2. apply Z.ltb_ge in Hc1, Hc2, Ha1, Ha2.
  split_and!; done || lia.
Qed.

(** X1: [validate_user_data] returns a record exactly when the email can
    be stripped and has an ['@'], the income converts to a float that is
    not below zero, the credit score and the age convert to integers of
    [300, 850] and [18, 100], and the employment status can be stripped;
    the record holds the stripped texts and the converted numbers. *)
Theorem validate_user_data_accepts_iff (row : Row) (user : UserRecord) :
  validate_user_data row = Some user <->
  str_strip (get row "email" (VStr "")) = Return (email user) /\
  has_at (email user) = true /\
  py_float (get row "monthly_income" (VInt 0)) = Return (monthly_income user) /\
  float_lt_zero (monthly_income user) = false /\
  py_int (get row "credit_score" (VInt 0)) = Return (credit_score user) /\
  300 <= credit_score user <= 850 /\
  py_int (get row "age" (VInt 0)) = Return (age user) /\
  18 <= age user <= 100 /\
  str_strip (get row "employment_status" (VStr "")) = Return (employment_status user).
Proof.
  split.
  - unfold validate_user_data.
    destruct (validate_body row) as [u|] eqn:Hv; [|done].
    intros [= ->]. by apply validate_body_inv.
  - intros (He & Hat & Hinc & Hneg & Hcs & Hcr & Hag & Har & Hst).
    unfold validate_user_data, validate_body.
    rewrite He. simpl. rewrite Hat, (has_at_nonempty _ Hat). simpl.
    rewrite Hinc. simpl. rewrite Hcs. simpl. rewrite Hag. simpl.
    assert ((credit_score user <? 300) = false) as -> by (apply Z.ltb_ge; lia).
    assert ((credit_score user >? 850) = false) as ->
      by (rewrite Z.gtb_ltb; apply Z.ltb_ge; lia).
    assert ((age user <? 18) = false) as -> by (apply Z.ltb_ge; lia).
    assert ((age user >? 100) = false) as ->
      by (rewrite Z.gtb_ltb; apply Z.ltb_ge; lia).
    simpl. rewrite Hneg, Hst. simpl. by destruct user.
Qed.

Lemma validate_user_data_valid (row : Row) (user : UserRecord) :
  validate_user_data row = Some user -> record_valid user.
Proof.
  unfold validate_user_data.
  destruct (validate_body row) as [u|] eqn:Hv; [|done].
  intros [= ->].
  apply validate_body_inv in Hv as (_ & Hat & _ & Hinc & _ & Hcs & _ & Hag & _).
  by unfold record_valid.
Qed.

Lemma users_data_valid (rows : list Row) :
  Forall record_valid (users_data (scan_rows rows)).
Proof.
  rewrite scan_rows_users_data. apply Forall_forall. intros user Hin.
  apply list_elem_of_omap in Hin as (row & _ & Hrow).
  by apply validate_user_data_valid in Hrow.
Qed.

Lemma upsert_valid (now : Z) (user : UserRecord) (table : list UserRow) :
  record_valid user -> Forall row_valid table ->
  Forall row_valid (upsert now user table).
Proof.
  intros (Hat & Hcs & Hag & Hinc).
  induction 1 as [|r rest Hr Hrest IH]; simpl.
  - constructor; [|done]. by unfold row_valid.
  - destruct (decide (row_email r = email user)).
    + constructor; [|done]. destruct Hr as (Hat' & _). by unfold row_valid.
    + by constructor.
Qed.

Lemma upsert_all_valid (now : Z) (batch : list UserRecord) :
  forall table : list UserRow,
    Forall record_valid batch -> Forall row_valid table ->
    Forall row_valid (upsert_all now batch table).
Proof.
  induction batch as [|u rest IH]; intros table Hb Ht; [done|].
  apply Forall_cons in Hb as [Hu Hb]. simpl. apply IH; [done|].
  by apply upsert_valid.
Qed.

Variable E : Env.

(** The table [users] after [process_csv_file], in every case. *)
Lemma process_csv_file_users (bucket key : string) (w : World) :
  users (process_csv_file E bucket key w).2 = users w \/
  exists rows,
    users (process_csv_file E bucket key w).2
    = upsert_all (CURRENT_TIMESTAMP E (txns w)) (users_data (scan_rows rows)) (users w).
Proof.
  destruct (get_object E bucket key) as [csv_content|e] eqn:Hg.
  - destruct (DictReader csv_content) as [rows|e] eqn:Hd.
    + destruct (process_csv_file_spec E bucket key w csv_content rows Hg Hd)
        as (p & f & db & w' & -> & _ & _ & _ & _ & Hu & _).
      simpl. rewrite Hu. destruct (accepts_all E 0 _); eauto.
    + rewrite (process_csv_file_parse_fails E bucket key w csv_content e Hg Hd). by left.
  - rewrite (process_csv_file_fetch_fails E bucket key w e Hg). by left.
Qed.

(** The table [users] after [handler] is the table after its
    [process_csv_file]. *)
Lemma handler_users (bucket key : string) (rest : Event) (w : World) :
  users (handler E ((bucket, key) :: rest) w).2
  = users (process_csv_file E bucket key
             (create_csv_upload_record E (basename key) key w).2).2.
Proof.
  rewrite handler_run. cbv zeta.
  destruct (process_csv_file E bucket key _) as [[[[[t p] f] errs]|e] w2].
  - rewrite update_csv_upload_status_spec. cbn [snd].
    match goal with
    | |- context [trigger_matching_workflow E bucket key ?w0] =>
        destruct (trigger_matching_workflow_spec E bucket key w0) as (posts & -> & _)
    end.
    done.
  - by rewrite update_csv_upload_status_spec.
Qed.

Lemma handler_no_records (w : World) :
  handler E [] w
  = (Return {| statusCode := 500; body := Failed "list index out of range" |}, w).
Proof. reflexivity. Qed.

(** X2: [handler] keeps [users] valid: when every stored row has an ['@']
    in its email, a credit score of [300, 850], an age of [18, 100] and an
    income that is not below zero, so has every row after the run,
    whatever the event, the payload and the faults of the store. *)
Theorem handler_keeps_users_valid (event : Event) (w : World) :
  Forall row_valid (users w) ->
  Forall row_valid (users (handler E event w).2).
Proof.
  intros Hvalid. destruct event as [|[bucket key] rest].
  - by rewrite handler_no_records.
  - rewrite handler_users.
    destruct (process_csv_file_users bucket key
                (create_csv_upload_record E (basename key) key w).2) as [->|[rows ->]].
    + by rewrite create_csv_upload_record_spec.
    + rewrite create_csv_upload_record_spec. cbn [snd users].
      apply upsert_all_valid; [apply users_data_valid|done].
Qed.

Lemma scan_fold_errors_length (rows : list Row) (st : Scan) :
  length (scan_errors st) = invalid_records st ->
  length (scan_errors (fold_left scan_row rows st))
  = invalid_records (fold_left scan_row rows st).
Proof.
  revert st. induction rows as [|row rows IH]; intros st Hst; [done|].
  simpl. apply IH. unfold scan_row.
  destruct (validate_user_data row); simpl; [done|].
  rewrite length_app. simpl. lia.
Qed.

(** X3: [process_csv_file] returns one error message for each failed
    record, so that [handler] stores an error summary exactly when
    [failed_records] is not zero. *)
Theorem one_error_message_per_failed_record (bucket key : string) (w w' : World)
    (total processed failed : nat) (errors : list string) :
  process_csv_file E bucket key w = (Return (total, processed, failed, errors), w') ->
  length errors = failed /\
  (error_summary errors = None <-> failed = 0%nat).
Proof.
  intros Hrun.
  destruct (get_object E bucket key) as [csv_content|e] eqn:Hg;
    [|by rewrite (process_csv_file_fetch_fails E bucket key w e) in Hrun].
  destruct (DictReader csv_content) as [rows|e] eqn:Hd;
    [|by rewrite (process_csv_file_parse_fails E bucket key w csv_content e) in Hrun].
  destruct (process_csv_file_spec E bucket key w csv_content rows Hg Hd)
    as (p & f & db & w1 & Heq & Hp & Hf & Hsum & Hdb & _).
  rewrite Heq in Hrun. injection Hrun as <- <- <- <- <-.
  assert (length (scan_errors (scan_rows rows) ++ db) = f) as Hlen.
  { rewrite length_app, Hdb, Hf. f_equal.
    unfold scan_rows. by apply scan_fold_errors_length. }
  split; [done|].
  destruct (scan_errors (scan_rows rows) ++ db) as [|m ms]; simpl in *.
  - split; [intros _; lia|done].
  - split; [done|lia].
Qed.

(** X5: a payload that is fetched but that the reader refuses is handled
    as one that cannot be fetched: the batch is recorded as ['failed'] with
    the text of the error, the answer is 500 with that text, and
    [insert_users_batch] is not reached: the run begins with the fetch,
    executes no statement on [users] and leaves [users] as it was. *)
Theorem parse_failure_is_recorded_and_propagated (bucket key : string)
    (rest : Event) (w : World) (csv_content : string) (e : exn) :
  get_object E bucket key = Return csv_content ->
  DictReader csv_content = Raise e ->
  (handler E ((bucket, key) :: rest) w).1
  = Return {| statusCode := 500; body := Failed (str_exn e) |} /\
  recorded (handler E ((bucket, key) :: rest) w).2 (next_upload_id w)
    (fun up => status up = "failed" /\ error_message up = Some (str_exn e)) /\
  users (handler E ((bucket, key) :: rest) w).2 = users w /\
  head (new_calls w (handler E ((bucket, key) :: rest) w).2)
  = Some (CGetObject bucket key) /\
  filter (fun c => is_upsert c = true)
    (new_calls w (handler E ((bucket, key) :: rest) w).2) = [].
Proof.
  intros Hg Hd.
  pose proof (handler_records E bucket key rest w) as Hrec.
  cbv zeta in Hrec. rewrite handler_run in Hrec |- *. cbv zeta in Hrec |- *.
  set (w1 := (create_csv_upload_record E (basename key) key w).2) in *.
  rewrite (process_csv_file_parse_fails E bucket key w1 csv_content e Hg Hd) in *.
  split_and!; try done.
  - eapply recorded_weaken; [|exact Hrec]. by intros up [r ->].
  - unfold new_calls. simpl. by rewrite drop_app_length.
  - unfold new_calls. simpl. by rewrite drop_app_length.
Qed.

End Acceptance.

(** *** Texts and paths *)

Section Texts.

Lemma is_prefix_app (p s : string) : is_prefix p (p +:+ s) = true.
Proof.
  induction p as [|c p IH]; simpl; [done|].
  by rewrite Ascii.eqb_refl, IH.
Qed.

Lemma ends_with_refl (s : string) : ends_with s s = true.
Proof.
  destruct s as [|c s]; [done|]. cbn [ends_with].
  by rewrite bool_decide_eq_true_2.
Qed.

Lemma ends_with_app (p s : string) : ends_with s (p +:+ s) = true.
Proof.
  induction p as [|c p IH]; simpl; [apply ends_with_refl|].
  by rewrite IH, orb_true_r.
Qed.

Lemma str_take_length (n : nat) (s : string) : (String.length (str_take n s) <= n)%nat.
Proof.
  revert s. induction n as [|n IH]; intros [|c s]; simpl; try lia.
  specialize (IH s). lia.
Qed.

Lemma no_slash_app (a b : string) : no_slash (a +:+ b) = no_slash a && no_slash b.
Proof.
  induction a as [|c a IH]; simpl; [done|]. by rewrite IH, andb_assoc.
Qed.

Lemma append_String (c : ascii) (q s : string) :
  String c q +:+ s = String c (q +:+ s).
Proof. reflexivity. Qed.

Lemma append_assoc (a b c : string) : a +:+ b +:+ c = (a +:+ b) +:+ c.
Proof.
  induction a as [|x a IH]; [done|]. rewrite !append_String. by f_equal.
Qed.

Lemma append_cons (q : string) (c : ascii) (s : string) :
  q +:+ String c s = (q +:+ String c "") +:+ s.
Proof. by rewrite <- append_assoc. Qed.

Lemma basename_aux_no_slash (s acc : string) :
  no_slash s = true -> basename_aux s acc = acc.
Proof.
  revert acc. induction s as [|c s IH]; intros acc H; simpl in *; [done|].
  apply andb_true_iff in H as [Hc Hs].
  destruct (Ascii.eqb c "/"); [done|]. by apply IH.
Qed.

(** The base name of a path has no ['/']. *)
Lemma basename_aux_clean (s : string) :
  forall q : string, no_slash q = true -> no_slash (basename_aux s (q +:+ s)) = true.
Proof.
  induction s as [|c s IH]; intros q Hq; cbn [basename_aux].
  - rewrite no_slash_app. simpl. by rewrite Hq.
  - destruct (Ascii.eqb c "/") eqn:Hc.
    + apply (IH ""). done.
    + rewrite (append_cons q c s).
      apply IH. rewrite no_slash_app. simpl. by rewrite Hq, Hc.
Qed.

Lemma basename_clean (path : string) : no_slash (basename path) = true.
Proof. apply (basename_aux_clean path ""). done. Qed.

(** The base name of an upload key is what follows ["uploads/"]. *)
Lemma basename_upload_key (timestamp unique_id filename : string) :
  no_slash timestamp = true -> no_slash unique_id = true ->
  no_slash filename = true ->
  basename (upload_key timestamp unique_id filename)
  = timestamp +:+ "-" +:+ unique_id +:+ "-" +:+ filename.
Proof.
  intros Ht Hu Hf. unfold basename, upload_key. simpl.
  apply basename_aux_no_slash.
  rewrite !no_slash_app. simpl. by rewrite Ht, Hu, Hf.
Qed.

Lemma no_slash_take (n : nat) (s : string) :
  no_slash s = true -> no_slash (str_take n s) = true.
Proof.
  revert s. induction n as [|n IH]; intros [|c s] H; simpl in *; try done.
  apply andb_true_iff in H as [Hc Hs]. by rewrite Hc, IH.
Qed.

End Texts.

(** *** The lifecycle of a batch *)

Section Lifecycle.
Context `{B : Builtins}.
Variable E : Env.

Lemma update_where_other (id : Z) (g : UploadRow -> UploadRow) (table : list UploadRow) :
  Forall (fun up => upload_id up <> id) table -> update_where id g table = table.
Proof.
  induction 1 as [|up rest Hup _ IH]; [done|].
  simpl. rewrite IH. by destruct (decide (upload_id up = id)).
Qed.

(** The table [csv_uploads] after a run of [handler]. *)
Lemma handler_uploads (bucket key : string) (rest : Event) (w : World) :
  exists (now : Z) (st : string) (t p f : option nat) (err : option string),
    is_terminal st = true /\
    csv_uploads (handler E ((bucket, key) :: rest) w).2
    = update_where (next_upload_id w) (set_fields now st t p f err)
        (csv_uploads w
         ++ [pending_upload (next_upload_id w) (CURRENT_TIMESTAMP E (txns w))
               (basename key) key]) /\
    next_upload_id (handler E ((bucket, key) :: rest) w).2 = next_upload_id w + 1.
Proof.
  rewrite handler_run. cbv zeta.
  pose proof (process_csv_file_frame E bucket key
                (create_csv_upload_record E (basename key) key w).2) as [Hup Hid].
  rewrite create_csv_upload_record_spec in Hup, Hid. cbn [snd csv_uploads next_upload_id] in Hup, Hid.
  destruct (process_csv_file E bucket key _) as [[[[[t p] f] errs]|e] w2];
    cbn [snd] in Hup, Hid.
  - rewrite update_csv_upload_status_spec. cbn [snd].
    match goal with
    | |- context [trigger_matching_workflow E bucket key ?w0] =>
        destruct (trigger_matching_workflow_spec E bucket key w0) as (posts & -> & _)
    end.
    cbn [snd csv_uploads next_upload_id]. rewrite Hup, Hid.
    by eexists _, "completed", _, _, _, _.
  - rewrite update_csv_upload_status_spec.
    cbn [snd csv_uploads next_upload_id]. rewrite Hup, Hid.
    by eexists _, "failed", _, _, _, _.
Qed.

Lemma handler_adds_one_batch (bucket key : string) (rest : Event) (w : World) :
  ids_below w ->
  exists up,
    csv_uploads (handler E ((bucket, key) :: rest) w).2 = csv_uploads w ++ [up] /\
    upload_id up = next_upload_id w /\
    file_name up = basename key /\
    s3_key up = key /\
    is_terminal (status up) = true /\
    is_Some (processed_at up) /\
    ids_below (handler E ((bucket, key) :: rest) w).2.
Proof.
  intros Hbelow.
  destruct (handler_uploads bucket key rest w)
    as (now & st & t & p & f & err & Hst & Hup & Hid).
  unfold update_where in Hup. rewrite map_app in Hup.
  fold (update_where (next_upload_id w) (set_fields now st t p f err) (csv_uploads w)) in Hup.
  rewrite update_where_other in Hup
    by (eapply Forall_impl; [exact Hbelow|]; simpl; intros; lia).
  simpl in Hup. destruct (decide (next_upload_id w = next_upload_id w)); [|done].
  eexists. split; [exact Hup|]. simpl. rewrite Hst.
  split_and!; try done.
  unfold ids_below. rewrite Hup, Hid. apply Forall_app. split.
  - eapply Forall_impl; [exact Hbelow|]. simpl. intros. lia.
  - constructor; [simpl; lia|done].
Qed.

(** X7: finalizing a batch a second time with the same status, counts and
    error leaves [csv_uploads] as the first time, but for the processed
    timestamp of that batch, which is taken anew. *)
Theorem finalizing_twice_is_finalizing_once (id : Z) (st : string)
    (t p f : option nat) (err : option string) (w : World) :
  let once := (update_csv_upload_status E id st t p f err w).2 in
  let twice := (update_csv_upload_status E id st t p f err once).2 in
  map but_processed_at (csv_uploads twice) = map but_processed_at (csv_uploads once) /\
  users twice = users w /\
  next_upload_id twice = next_upload_id w.
Proof.
  cbv zeta. rewrite !update_csv_upload_status_spec. cbn [snd csv_uploads users next_upload_id].
  split; [|done]. unfold update_where. rewrite !map_map.
  apply map_ext. intros r.
  destruct (decide (upload_id r = id)) as [Hr|Hr]; simpl.
  - destruct (decide (upload_id r = id)); [|done].
    unfold but_processed_at, set_fields. simpl.
    destruct t, p, f, err; done.
  - by destruct (decide (upload_id r = id)).
Qed.

End Lifecycle.

(** *** The store out of reach *)

Section Outages.
Context `{B : Builtins}.
Variable E : Env.

(** With a store that refuses nothing, [Outage.handler] is [handler]. *)
Lemma outage_handler_up (event : Event) (w : World) :
  Outage.handler E Outage.up event w = handler E event w.
Proof. reflexivity. Qed.

Lemma outage_update_csv_upload_status_up (id : Z) (st : string)
    (t p f : option nat) (err : option string) (w : World) :
  Outage.update_csv_upload_status E Outage.up id st t p f err w
  = update_csv_upload_status E id st t p f err w.
Proof. reflexivity. Qed.

Variable D : Outage.Store.

Lemma outage_create_spec (name key : string) (w : World) :
  users (Outage.create_csv_upload_record E D name key w).2 = users w /\
  ((Outage.create_csv_upload_record E D name key w).1 = Return (next_upload_id w) /\
   csv_uploads (Outage.create_csv_upload_record E D name key w).2
   = csv_uploads w
     ++ [pending_upload (next_upload_id w) (CURRENT_TIMESTAMP E (txns w)) name key] /\
   next_upload_id (Outage.create_csv_upload_record E D name key w).2
   = next_upload_id w + 1
   \/
   (exists e, (Outage.create_csv_upload_record E D name key w).1 = Raise e) /\
   csv_uploads (Outage.create_csv_upload_record E D name key w).2 = csv_uploads w /\
   next_upload_id w <= next_upload_id (Outage.create_csv_upload_record E D name key w).2).
Proof.
  unfold Outage.create_csv_upload_record, Outage.get_db_cursor, Outage.execute_uploads.
  destruct (Outage.connect_fault D (txns w)) as [msg|]; simpl.
  { split; [done|]. right. split_and!; [eauto|done|lia]. }
  destruct (Outage.uploads_fault D (txns w)) as [msg|]; simpl.
  { split; [done|]. right. split_and!; [eauto|done|lia]. }
  destruct (Outage.commit_fault D (txns w)) as [msg|]; simpl.
  { split; [done|]. right. split_and!; [eauto|done|lia]. }
  split; [done|]. by left.
Qed.

Lemma outage_update_spec (id : Z) (st : string) (t p f : option nat)
    (err : option string) (w : World) :
  users (Outage.update_csv_upload_status E D id st t p f err w).2 = users w /\
  next_upload_id (Outage.update_csv_upload_status E D id st t p f err w).2
  = next_upload_id w /\
  (csv_uploads (Outage.update_csv_upload_status E D id st t p f err w).2
   = csv_uploads w
   \/
   (Outage.update_csv_upload_status E D id st t p f err w).1 = Return tt /\
   csv_uploads (Outage.update_csv_upload_status E D id st t p f err w).2
   = update_where id (set_fields (CURRENT_TIMESTAMP E (txns w)) st t p f err)
       (csv_uploads w)).
Proof.
  unfold Outage.update_csv_upload_status, Outage.get_db_cursor, Outage.execute_uploads.
  destruct (Outage.connect_fault D (txns w)) as [msg|]; simpl; [by auto|].
  destruct (Outage.uploads_fault D (txns w)) as [msg|]; simpl; [by auto|].
  destruct (Outage.commit_fault D (txns w)) as [msg|]; simpl; by auto.
Qed.

Lemma outage_insert_users_batch_frame (batch : list UserRecord) (w : World) :
  csv_uploads (Outage.insert_users_batch E D batch w).2 = csv_uploads w /\
  next_upload_id (Outage.insert_users_batch E D batch w).2 = next_upload_id w.
Proof.
  unfold Outage.insert_users_batch, Outage.get_db_cursor, mbind, M_bind, log.
  cbn [fst snd txns].
  destruct (Outage.connect_fault D (txns w)) as [msg|]; [done|].
  match goal with
  | |- context [insert_loop E ?i batch ?s0 ?f0 ?e0 ?t0] =>
      destruct (insert_loop_spec E batch i s0 f0 e0 t0)
        as (s' & f' & errs' & t' & Heq & _ & _ & Hup & Hid & _)
  end.
  rewrite Heq. simpl in Hup, Hid.
  destruct (Outage.commit_fault D (txns w)) as [msg|]; unfold commit, rollback;
    [|destruct (aborted t')]; done.
Qed.

Lemma outage_process_csv_file_frame (bucket key : string) (w : World) :
  csv_uploads (Outage.process_csv_file E D bucket key w).2 = csv_uploads w /\
  next_upload_id (Outage.process_csv_file E D bucket key w).2 = next_upload_id w.
Proof.
  unfold Outage.process_csv_file, download, read_rows, mbind, M_bind, mret, M_ret,
    raise, log, log_all.
  cbn [fst snd].
  destruct (get_object E bucket key) as [csv_content|e]; [|done].
  destruct (DictReader csv_content) as [rows|e]; [|done].
  destruct (users_data (scan_rows rows)) as [|u us]; [done|].
  match goal with
  | |- context [Outage.insert_users_batch E D ?b ?w0] =>
      pose proof (outage_insert_users_batch_frame b w0) as [Hup Hid];
      destruct (Outage.insert_users_batch E D b w0) as [[[[s f] errs]|e] w']
  end; done.
Qed.

Lemma outage_process_csv_file_returns (bucket key : string) (w : World)
    (counts : nat * nat * nat * list string) :
  (Outage.process_csv_file E D bucket key w).1 = Return counts ->
  exists (csv_content : string) (rows : list Row),
    get_object E bucket key = Return csv_content /\
    DictReader csv_content = Return rows.
Proof.
  unfold Outage.process_csv_file, download, read_rows, mbind, M_bind, mret, M_ret,
    raise, log, log_all.
  cbn [fst snd].
  destruct (get_object E bucket key) as [csv_content|e]; [|done].
  destruct (DictReader csv_content) as [rows|e] eqn:Hd; [|done].
  intros _. by exists csv_content, rows.
Qed.

(** One run of [Outage.handler] on a well-formed event, step by step. *)
Lemma outage_handler_run (bucket key : string) (rest : Event) (w : World) :
  Outage.handler E D ((bucket, key) :: rest) w =
  match Outage.create_csv_upload_record E D (basename key) key w with
  | (Raise e, w1) =>
      (Return {| statusCode := 500; body := Failed (str_exn e) |}, w1)
  | (Return id, w1) =>
      match Outage.process_csv_file E D bucket key w1 with
      | (Return (t, p, f, errs), w2) =>
          match Outage.update_csv_upload_status E D id "completed"
                  (Some t) (Some p) (Some f) (error_summary errs) w2 with
          | (Return _, w3) =>
              (Return {| statusCode := 200; body := Processed id t p f |},
               (trigger_matching_workflow E bucket key w3).2)
          | (Raise e, w3) =>
              match Outage.update_csv_upload_status E D id "failed"
                      None None None (Some (str_exn e)) w3 with
              | (Return _, w4) =>
                  (Return {| statusCode := 500; body := Failed (str_exn e) |}, w4)
              | (Raise e', w4) =>
                  (Return {| statusCode := 500; body := Failed (str_exn e') |}, w4)
              end
          end
      | (Raise e, w2) =>
          match Outage.update_csv_upload_status E D id "failed"
                  None None None (Some (str_exn e)) w2 with
          | (Return _, w4) =>
              (Return {| statusCode := 500; body := Failed (str_exn e) |}, w4)
          | (Raise e', w4) =>
              (Return {| statusCode := 500; body := Failed (str_exn e') |}, w4)
          end
      end
  end.
Proof.
  unfold Outage.handler, try_except, mbind, M_bind, mret, M_ret, raise.
  destruct (Outage.create_csv_upload_record E D (basename key) key w)
    as [[id|e] w1]; [|done].
  destruct (Outage.process_csv_file E D bucket key w1)
    as [[[[[t p] f] errs]|e] w2].
  - destruct (Outage.update_csv_upload_status E D id "completed" _ _ _ _ w2)
      as [[[]|e] w3].
    + destruct (trigger_matching_workflow_spec E bucket key w3) as (posts & -> & _).
      done.
    + by destruct (Outage.update_csv_upload_status E D id "failed" _ _ _ _ w3)
        as [[[]|e'] w4].
  - by destruct (Outage.update_csv_upload_status E D id "failed" _ _ _ _ w2)
      as [[[]|e'] w4].
Qed.

(** X4: [handler] never raises, whether or not the store can be reached: it
    answers 200 or 500, and 200 only for an event with a record whose
    object can be fetched and read as a table; when the store refuses
    nothing, it answers 200 for every such event. *)
Theorem handler_answers_200_or_500 (event : Event) (w : World) :
  (exists resp,
     (Outage.handler E D event w).1 = Return resp /\
     (statusCode resp = 200 /\ (exists id t p f, body resp = Processed id t p f)
      \/ statusCode resp = 500 /\ (exists error, body resp = Failed error)) /\
     (statusCode resp = 200 ->
      exists bucket key rest csv_content rows,
        event = (bucket, key) :: rest /\
        get_object E bucket key = Return csv_content /\
        DictReader csv_content = Return rows)) /\
  Outage.handler E Outage.up event w = handler E event w /\
  (exists resp,
     (handler E event w).1 = Return resp /\
     (statusCode resp = 200 <->
      exists bucket key rest csv_content rows,
        event = (bucket, key) :: rest /\
        get_object E bucket key = Return csv_content /\
        DictReader csv_content = Return rows)).
Proof.
  split_and!; [|apply outage_handler_up|].
  - destruct event as [|[bucket key] rest].
    { eexists. split; [reflexivity|]. simpl. split; [right; split; [done|by eexists]|done]. }
    rewrite outage_handler_run.
    destruct (Outage.create_csv_upload_record E D (basename key) key w)
      as [[id|e] w1].
    2:{ eexists. split; [reflexivity|]. simpl. split; [right; split; [done|by eexists]|done]. }
    destruct (Outage.process_csv_file E D bucket key w1)
      as [[[[[t p] f] errs]|e] w2] eqn:Hrun.
    + destruct (Outage.update_csv_upload_status E D id "completed" _ _ _ _ w2)
        as [[[]|e] w3].
      * eexists. split; [reflexivity|]. simpl. split; [left; split; [done|by eexists _, _, _, _]|].
        intros _.
        destruct (outage_process_csv_file_returns bucket key w1 (t, p, f, errs))
          as (csv_content & rows & Hg & Hd); [by rewrite Hrun|].
        by exists bucket, key, rest, csv_content, rows.
      * destruct (Outage.update_csv_upload_status E D id "failed" _ _ _ _ w3)
          as [[[]|e'] w4];
          (eexists; split; [reflexivity|]; simpl; split; [right; split; [done|by eexists]|done]).
    + destruct (Outage.update_csv_upload_status E D id "failed" _ _ _ _ w2)
        as [[[]|e'] w4];
        (eexists; split; [reflexivity|]; simpl; split; [right; split; [done|by eexists]|done]).
  - destruct event as [|[bucket key] rest].
    + rewrite handler_no_records. eexists. split; [done|]. simpl.
      split; [done|]. by intros (? & ? & ? & ? & ? & ? & _).
    + rewrite handler_run. cbv zeta.
      set (w1 := (create_csv_upload_record E (basename key) key w).2).
      destruct (get_object E bucket key) as [csv_content|e] eqn:Hg.
      * destruct (DictReader csv_content) as [rows|e] eqn:Hd.
        -- destruct (process_csv_file_spec E bucket key w1 csv_content rows Hg Hd)
             as (p & f & db & w' & -> & _).
           eexists. split; [done|]. simpl.
           split; [|done]. intros _. by exists bucket, key, rest, csv_content, rows.
        -- rewrite (process_csv_file_parse_fails E bucket key w1 csv_content e Hg Hd).
           eexists. split; [done|]. simpl. split; [done|].
           intros (? & ? & ? & ? & ? & [= <- <- <-] & Hg' & Hd'). congruence.
      * rewrite (process_csv_file_fetch_fails E bucket key w1 e Hg).
        eexists. split; [done|]. simpl. split; [done|].
        intros (? & ? & ? & ? & ? & [= <- <- <-] & Hg' & _). congruence.
Qed.

(** *** The batches under an outage *)

Lemma appended_first (key : string) (w w' : World) :
  csv_uploads w' = csv_uploads w ->
  next_upload_id w <= next_upload_id w' ->
  Outage.appended w key w'.
Proof.
  intros Hup Hid. exists []. rewrite app_nil_r.
  split_and!; [done|simpl; lia|constructor|done|done].
Qed.

Lemma appended_frame (key : string) (w w1 w2 : World) :
  Outage.appended w key w1 ->
  csv_uploads w2 = csv_uploads w1 ->
  next_upload_id w2 = next_upload_id w1 ->
  Outage.appended w key w2.
Proof.
  intros (added & Hup & Hlen & Hall & Hle & Hlt) Hup2 Hid2.
  exists added. rewrite Hup2, Hid2. done.
Qed.

Lemma batch_of_set_fields (key : string) (w : World) (now : Z) (st : string)
    (t p f : option nat) (err : option string) (up : UploadRow) :
  is_terminal st = true ->
  Outage.batch_of w key up ->
  Outage.batch_of w key (set_fields now st t p f err up).
Proof.
  intros Hst (Hid & Hname & Hkey & _). unfold Outage.batch_of. simpl.
  rewrite Hst. split_and!; try done. right. split; [done|]. by eexists.
Qed.

Lemma appended_update (key : string) (w w1 w2 : World) (now : Z) (st : string)
    (t p f : option nat) (err : option string) :
  ids_below w ->
  is_terminal st = true ->
  Outage.appended w key w1 ->
  csv_uploads w2
  = update_where (next_upload_id w) (set_fields now st t p f err) (csv_uploads w1) ->
  next_upload_id w2 = next_upload_id w1 ->
  Outage.appended w key w2.
Proof.
  intros Hbelow Hst (added & Hup & Hlen & Hall & Hle & Hlt) Hup2 Hid2.
  exists (update_where (next_upload_id w) (set_fields now st t p f err) added).
  rewrite Hup2, Hid2, Hup. unfold update_where at 1. rewrite map_app.
  fold (update_where (next_upload_id w) (set_fields now st t p f err) (csv_uploads w)).
  fold (update_where (next_upload_id w) (set_fields now st t p f err) added).
  rewrite update_where_other
    by (eapply Forall_impl; [exact Hbelow|]; simpl; intros; lia).
  split_and!; [done| | |done|].
  - unfold update_where. by rewrite length_map.
  - unfold update_where. apply Forall_fmap. eapply Forall_impl; [exact Hall|].
    intros up Hb. simpl.
    destruct (decide (upload_id up = next_upload_id w)); [|done].
    by apply batch_of_set_fields.
  - intros Hne. apply Hlt. intros ->. by apply Hne.
Qed.

Lemma appended_outage_update (key : string) (w w1 : World) (st : string)
    (t p f : option nat) (err : option string) :
  ids_below w ->
  is_terminal st = true ->
  Outage.appended w key w1 ->
  Outage.appended w key
    (Outage.update_csv_upload_status E D (next_upload_id w) st t p f err w1).2.
Proof.
  intros Hbelow Hst Happ.
  destruct (outage_update_spec (next_upload_id w) st t p f err w1)
    as (_ & Hid & [Hup|[_ Hup]]).
  - by eapply appended_frame.
  - by eapply appended_update.
Qed.

Lemma appended_ids_below (key : string) (w w' : World) :
  ids_below w -> Outage.appended w key w' -> ids_below w'.
Proof.
  intros Hbelow (added & Hup & Hlen & Hall & Hle & Hlt).
  unfold ids_below. rewrite Hup. apply Forall_app. split.
  - eapply Forall_impl; [exact Hbelow|]. simpl. intros. lia.
  - destruct added as [|up added]; [constructor|].
    specialize (Hlt ltac:(done)).
    eapply Forall_impl; [exact Hall|]. intros up' (Hid & _). simpl. lia.
Qed.

Lemma outage_handler_appended (bucket key : string) (rest : Event) (w : World) :
  ids_below w ->
  Outage.appended w key (Outage.handler E D ((bucket, key) :: rest) w).2.
Proof.
  intros Hbelow. rewrite outage_handler_run.
  destruct (outage_create_spec (basename key) key w)
    as (_ & [(Hret & Hup & Hid)|((e & Hret) & Hup & Hid)]);
    destruct (Outage.create_csv_upload_record E D (basename key) key w)
      as [[id|e0] w1]; cbn [fst snd] in *; try done.
  2:{ by apply appended_first. }
  injection Hret as ->.
  assert (Outage.appended w key w1) as H1.
  { eexists. split; [exact Hup|]. unfold Outage.batch_of. simpl.
    split_and!; [lia| |lia|intros _; lia].
    constructor; [|constructor]. simpl. split_and!; try done. by left. }
  pose proof (outage_process_csv_file_frame bucket key w1) as [Hup2 Hid2].
  destruct (Outage.process_csv_file E D bucket key w1)
    as [[[[[t p] f] errs]|e] w2]; cbn [snd] in Hup2, Hid2.
  - assert (Outage.appended w key w2) as H2 by (by eapply appended_frame).
    pose proof (appended_outage_update key w w2 "completed"
                  (Some t) (Some p) (Some f) (error_summary errs) Hbelow eq_refl H2)
      as H3.
    destruct (Outage.update_csv_upload_status E D (next_upload_id w) "completed"
                _ _ _ _ w2) as [[[]|e] w3]; cbn [snd] in H3.
    + destruct (trigger_matching_workflow_spec E bucket key w3) as (posts & -> & _).
      by eapply appended_frame.
    + pose proof (appended_outage_update key w w3 "failed"
                    None None None (Some (str_exn e)) Hbelow eq_refl H3) as H4.
      by destruct (Outage.update_csv_upload_status E D (next_upload_id w) "failed"
                     _ _ _ _ w3) as [[[]|e'] w4].
  - assert (Outage.appended w key w2) as H2 by (by eapply appended_frame).
    pose proof (appended_outage_update key w w2 "failed"
                  None None None (Some (str_exn e)) Hbelow eq_refl H2) as H4.
    by destruct (Outage.update_csv_upload_status E D (next_upload_id w) "failed"
                   _ _ _ _ w2) as [[[]|e'] w4].
Qed.

(** X6: when all stored upload ids are below the sequence, a run of
    [handler] on an event with a record, whether or not the store can be
    reached, leaves the batches that were there as they were and adds at
    most one batch after them; an added batch has the next id of the
    sequence, the key and, as its file name, the base name of the key,
    which has no ['/'], and it is pending or in a terminal state with its
    processed timestamp; the ids stay below the sequence.  When the store
    refuses nothing, exactly one batch is added, and it is in a terminal
    state. *)
Theorem handler_keeps_earlier_batches (bucket key : string) (rest : Event)
    (w : World) :
  ids_below w ->
  (exists added : list UploadRow,
     csv_uploads (Outage.handler E D ((bucket, key) :: rest) w).2
     = csv_uploads w ++ added /\
     (length added <= 1)%nat /\
     Forall (fun up => Outage.batch_of w key up /\ no_slash (file_name up) = true)
       added) /\
  ids_below (Outage.handler E D ((bucket, key) :: rest) w).2 /\
  (exists up : UploadRow,
     csv_uploads (handler E ((bucket, key) :: rest) w).2 = csv_uploads w ++ [up] /\
     Outage.batch_of w key up /\
     is_terminal (status up) = true).
Proof.
  intros Hbelow.
  pose proof (outage_handler_appended bucket key rest w Hbelow) as Happ.
  split_and!.
  - destruct Happ as (added & Hup & Hlen & Hall & _).
    exists added. split_and!; [done|done|].
    eapply Forall_impl; [exact Hall|]. intros up Hb. split; [done|].
    destruct Hb as (_ & -> & _). apply basename_clean.
  - by eapply appended_ids_below.
  - destruct (handler_adds_one_batch E bucket key rest w Hbelow)
      as (up & Hup & Hid & Hname & Hkey & Hst & Hat & _).
    exists up. unfold Outage.batch_of. split_and!; try done. by right.
Qed.

(** X8: [update_csv_upload_status] with an id that [csv_uploads] does not
    have changes no batch, whether or not the store can be reached, and
    never touches [users] or the sequence; with any id, the number of
    batches stays and every batch of another id stays in its place. *)
Theorem updating_an_unknown_batch_changes_nothing (id : Z) (st : string)
    (t p f : option nat) (err : option string) (w : World) :
  Forall (fun up => upload_id up <> id) (csv_uploads w) ->
  csv_uploads (Outage.update_csv_upload_status E D id st t p f err w).2
  = csv_uploads w /\
  csv_uploads (update_csv_upload_status E id st t p f err w).2 = csv_uploads w /\
  users (Outage.update_csv_upload_status E D id st t p f err w).2 = users w /\
  next_upload_id (Outage.update_csv_upload_status E D id st t p f err w).2
  = next_upload_id w /\
  (forall (other : Z),
     length (csv_uploads (Outage.update_csv_upload_status E D other st t p f err w).2)
     = length (csv_uploads w) /\
     forall (i : nat) (up : UploadRow),
       csv_uploads w !! i = Some up ->
       upload_id up <> other ->
       csv_uploads (Outage.update_csv_upload_status E D other st t p f err w).2 !! i
       = Some up).
Proof.
  intros Hother.
  destruct (outage_update_spec id st t p f err w) as (Hu & Hid & Hup).
  split_and!; try done.
  - destruct Hup as [->|[_ ->]]; [done|]. by apply update_where_other.
  - rewrite update_csv_upload_status_spec. simpl. by apply update_where_other.
  - intros other.
    destruct (outage_update_spec other st t p f err w) as (_ & _ & [->|[_ ->]]);
      [done|].
    unfold update_where. rewrite length_map. split; [done|].
    intros i up Hi Hne. rewrite list_lookup_fmap, Hi. simpl.
    by destruct (decide (upload_id up = other)).
Qed.

End Outages.

(** *** The batch upsert, in general *)

Section Batches.
Context `{B : Builtins}.
Variable E : Env.

Lemma accepts_all_prefix (batch : list UserRecord) :
  forall i, accepts_all E i batch = true -> accepted_prefix E i batch = length batch.
Proof.
  induction batch as [|u rest IH]; intros i H; [done|].
  simpl in *. destruct (store_fault E i u); [done|]. by rewrite IH.
Qed.

Lemma refused_prefix (batch : list UserRecord) :
  forall i, accepts_all E i batch = false ->
            (accepted_prefix E i batch < length batch)%nat.
Proof.
  induction batch as [|u rest IH]; intros i H; [done|].
  simpl in *. destruct (store_fault E i u); [lia|]. specialize (IH _ H). lia.
Qed.

(** X9: when the store refuses a statement of a batch, [insert_users_batch]
    still executes a statement for every record and returns normally, but
    leaves [users] as it was before the batch; it reports as successes the
    records before the first refusal and as failures all the others. *)
Theorem refused_statement_undoes_the_batch (batch : list UserRecord) (w : World) :
  accepts_all E 0 batch = false ->
  exists errs,
    (insert_users_batch E batch w).1
    = Return (accepted_prefix E 0 batch,
              (length batch - accepted_prefix E 0 batch)%nat, errs) /\
    (accepted_prefix E 0 batch < length batch)%nat /\
    length errs = (length batch - accepted_prefix E 0 batch)%nat /\
    users (insert_users_batch E batch w).2 = users w /\
    new_calls w (insert_users_batch E batch w).2
    = CInsertUsersBatch (length batch) :: map (fun u => CExecute (email u)) batch.
Proof.
  intros Hacc.
  destruct (insert_users_batch_spec E batch w)
    as (s & f & errs & w' & -> & Hsum & -> & Hlen & Hu & _ & _ & _ & Hcalls).
  rewrite Hacc in Hu. pose proof (refused_prefix batch 0 Hacc).
  exists errs. simpl.
  assert (f = length batch - accepted_prefix E 0 batch)%nat as -> by lia.
  split_and!; try done.
  unfold new_calls. by rewrite Hcalls, drop_app_length.
Qed.

(** X10: when the store accepts every statement of a batch,
    [insert_users_batch] reports every record as a success and no error,
    and afterwards the email of every record finds a row that holds the
    values of the last record of the batch with that email, updated at the
    time of the transaction. *)
Theorem accepted_batch_is_stored (batch : list UserRecord) (w : World) :
  accepts_all E 0 batch = true ->
  (insert_users_batch E batch w).1 = Return (length batch, 0%nat, []) /\
  forall user, user ∈ batch ->
    exists r last,
      find_email (email user) (users (insert_users_batch E batch w).2) = Some r /\
      last_with (email user) batch = Some last /\
      holds r last /\
      updated_at r = CURRENT_TIMESTAMP E (txns w).
Proof.
  intros Hacc.
  destruct (insert_users_batch_spec E batch w)
    as (s & f & errs & w' & -> & Hsum & -> & Hlen & Hu & _).
  rewrite Hacc in Hu. rewrite (accepts_all_prefix batch 0 Hacc) in *.
  assert (f = 0%nat) as -> by lia. destruct errs; [|done]. simpl.
  split; [done|]. intros user Hin. rewrite Hu.
  destruct (last_with_member batch user Hin) as [last Hlast].
  pose proof (last_with_email _ _ _ Hlast) as [Hle _].
  rewrite upsert_all_find, Hlast. eexists _, last.
  split_and!; [done|done| |].
  - destruct (find_email (email user) (users w)) as [r1|] eqn:Hf.
    + apply find_email_Some in Hf as [_ Hf].
      unfold holds. simpl. split_and!; try done. congruence.
    + done.
  - by destruct (find_email (email user) (users w)).
Qed.

Lemma same_identity_refl (r : UserRow) : same_identity r r.
Proof. by unfold same_identity. Qed.

Lemma upsert_lookup (now : Z) (user : UserRecord) (table : list UserRow) :
  forall (i : nat) (r : UserRow),
    table !! i = Some r ->
    exists r', upsert now user table !! i = Some r' /\ same_identity r r'.
Proof.
  induction table as [|r0 rest IH]; intros i r Hi; [done|].
  simpl. destruct (decide (row_email r0 = email user)).
  - destruct i as [|i]; simpl in *.
    + injection Hi as <-. eexists. split; [done|]. by unfold same_identity.
    + exists r. split; [done|apply same_identity_refl].
  - destruct i as [|i]; simpl in *.
    + injection Hi as <-. exists r0. split; [done|apply same_identity_refl].
    + by apply IH.
Qed.

Lemma upsert_all_lookup (now : Z) (batch : list UserRecord) :
  forall (table : list UserRow) (i : nat) (r : UserRow),
    table !! i = Some r ->
    exists r', upsert_all now batch table !! i = Some r' /\ same_identity r r'.
Proof.
  induction batch as [|u rest IH]; intros table i r Hi.
  { exists r. split; [done|apply same_identity_refl]. }
  simpl. destruct (upsert_lookup now u table i r Hi) as (r1 & Hr1 & H1).
  destruct (IH _ i r1 Hr1) as (r2 & Hr2 & H2).
  exists r2. split; [done|].
  destruct H1 as (? & ? & ? & ?), H2 as (? & ? & ? & ?).
  unfold same_identity. split_and!; congruence.
Qed.

(** X11: [insert_users_batch] never removes or moves a user and never
    rewrites who a row is: a row of [users] is afterwards at the same
    position with the same email, creation time, user id and name,
    whatever the batch and the faults of the store; and distinct emails
    stay distinct. *)
Theorem insert_users_batch_keeps_every_user (batch : list UserRecord) (w : World)
    (i : nat) (r : UserRow) :
  users w !! i = Some r ->
  (exists r', users (insert_users_batch E batch w).2 !! i = Some r' /\
              same_identity r r') /\
  (NoDup (emails (users w)) ->
   NoDup (emails (users (insert_users_batch E batch w).2))).
Proof.
  intros Hi.
  destruct (insert_users_batch_spec E batch w)
    as (s & f & errs & w' & -> & _ & _ & _ & Hu & _).
  simpl. rewrite Hu. destruct (accepts_all E 0 batch).
  - split; [by apply upsert_all_lookup|]. apply upsert_all_NoDup.
  - split; [|done]. exists r. split; [done|apply same_identity_refl].
Qed.

End Batches.

(** *** The second writer *)

Section SecondWriter.
Context `{B : Builtins}.
Variable E : Env.

Lemma has_email_false (e : string) (table : list UserRow) :
  has_email e table = false -> e ∉ emails table.
Proof.
  unfold has_email, emails. intros H Hin.
  apply list_elem_of_fmap in Hin as (r & -> & Hr).
  apply not_true_iff_false in H. apply H, existsb_exists.
  exists r. split; [by apply list_elem_of_In|by apply bool_decide_eq_true].
Qed.

Lemma legacy_loop_spec (rows : list Row) :
  forall (i ins sk : nat) (t : Txn),
  exists (ins' sk' : nat) (t' : Txn) (added : list UserRow),
    legacy_loop E i rows ins sk t = (Return (ins', sk'), t') /\
    (ins' + sk' = ins + sk + length rows)%nat /\
    users (working t') = users (working t) ++ added /\
    csv_uploads (working t') = csv_uploads (working t) /\
    next_upload_id (working t') = next_upload_id (working t) /\
    txns (working t') = txns (working t) /\
    aborted t' = aborted t || negb (legacy_accepts_all E i rows) /\
    (aborted t' = false -> (ins' = ins + length added)%nat) /\
    (NoDup (emails (users (working t))) -> NoDup (emails (users (working t')))).
Proof.
  induction rows as [|row rest IH]; intros i ins sk t.
  - exists ins, sk, t, []. simpl. rewrite app_nil_r, orb_false_r.
    split_and!; try done; lia.
  - cbn [legacy_loop legacy_accepts_all].
    destruct (legacy_params row) as [p|e].
    2:{ destruct (IH (S i) ins (S sk) t)
          as (ins' & sk' & t' & added & -> & Hsum & Hu & Hup & Hid & Htx & Hab & Hlen & Hnd).
        exists ins', sk', t', added. simpl. split_and!; try done; lia. }
    unfold execute_insert.
    assert (aborted (tx_log (CExecuteLegacy (lp_email p)) t) = aborted t) as -> by done.
    destruct (aborted t) eqn:Hab0.
    { destruct (IH (S i) ins (S sk) (tx_log (CExecuteLegacy (lp_email p)) t))
        as (ins' & sk' & t' & added & -> & Hsum & Hu & Hup & Hid & Htx & Hab & Hlen & Hnd).
      exists ins', sk', t', added. simpl in *. rewrite Hab0 in Hab. simpl in Hab.
      split_and!; try done; try lia; try (intros; congruence). }
    destruct (legacy_fault E i p) as [msg|].
    { destruct (IH (S i) ins (S sk) (tx_abort (tx_log (CExecuteLegacy (lp_email p)) t)))
        as (ins' & sk' & t' & added & -> & Hsum & Hu & Hup & Hid & Htx & Hab & Hlen & Hnd).
      exists ins', sk', t', added. simpl in *.
      split_and!; try done; try lia; try (intros; congruence). }
    destruct (sql_text (lp_email p)) as [e|].
    2:{ destruct (IH (S i) ins (S sk) (tx_abort (tx_log (CExecuteLegacy (lp_email p)) t)))
          as (ins' & sk' & t' & added & -> & Hsum & Hu & Hup & Hid & Htx & Hab & Hlen & Hnd).
        exists ins', sk', t', added. simpl in *.
        split_and!; try done; try lia; try (intros; congruence). }
    unfold insert_do_nothing. cbn [tx_log working users log snd now].
    destruct (has_email e (users (working t))) eqn:Hhas; cbn [Nat.ltb Nat.leb].
    + destruct (IH (S i) ins (S sk)
                  (tx_set_users (users (working t)) (tx_log (CExecuteLegacy (lp_email p)) t)))
        as (ins' & sk' & t' & added & Heq & Hsum & Hu & Hup & Hid & Htx & Hab & Hlen & Hnd).
      simpl in *. rewrite Heq. exists ins', sk', t', added.
      rewrite Hab0 in Hab. split_and!; try done; lia.
    + destruct (IH (S i) (S ins) sk
                  (tx_set_users (users (working t) ++ [legacy_row (now t) e p])
                     (tx_log (CExecuteLegacy (lp_email p)) t)))
        as (ins' & sk' & t' & added & Heq & Hsum & Hu & Hup & Hid & Htx & Hab & Hlen & Hnd).
      simpl in *. rewrite Heq. exists ins', sk', t', (legacy_row (now t) e p :: added).
      rewrite Hab0 in Hab. split_and!; try done; try lia.
      * by rewrite Hu, <- app_assoc.
      * intros H. specialize (Hlen H). simpl. lia.
      * intros H. apply Hnd. unfold emails. rewrite map_app. simpl.
        apply NoDup_app. split_and!; [done| |apply NoDup_singleton].
        intros x Hx Hs. apply list_elem_of_singleton in Hs. subst x.
        by apply (has_email_false e (users (working t))).
Qed.

(** A run of [lambda_handler] whose payload is fetched and read. *)
Lemma lambda_handler_spec (bucket quoted csv_content : string) (rest : Event)
    (rows : list Row) (w : World) :
  get_object E bucket (unquote_plus quoted) = Return csv_content ->
  DictReader csv_content = Return rows ->
  exists (ins sk : nat) (added : list UserRow),
    (lambda_handler E ((bucket, quoted) :: rest) w).1
    = Return {| legacy_statusCode := 200;
                legacy_body := Inserted ins sk (unquote_plus quoted) |} /\
    (ins + sk = length rows)%nat /\
    users (lambda_handler E ((bucket, quoted) :: rest) w).2
    = (if legacy_accepts_all E 0 rows then users w ++ added else users w) /\
    (legacy_accepts_all E 0 rows = true -> ins = length added) /\
    (NoDup (emails (users w)) -> NoDup (emails (users w ++ added))) /\
    csv_uploads (lambda_handler E ((bucket, quoted) :: rest) w).2 = csv_uploads w.
Proof.
  intros Hg Hd.
  unfold lambda_handler, try_except, download, read_rows, connect_and_commit,
    legacy_webhook, mbind, M_bind, mret, M_ret, raise, log. simpl.
  rewrite Hg. simpl. rewrite Hd. simpl.
  match goal with
  | |- context [legacy_loop E ?i rows ?a ?b ?t0] =>
      destruct (legacy_loop_spec rows i a b t0)
        as (ins & sk & t' & added & -> & Hsum & Hu & Hup & Hid & Htx & Hab & Hlen & Hnd)
  end.
  simpl in *. exists ins, sk, added.
  assert (users (commit
            {| users := users w; csv_uploads := csv_uploads w;
               next_upload_id := next_upload_id w; txns := txns w;
               calls := calls w ++ [CGetObject bucket (unquote_plus quoted)] |} t')
          = if legacy_accepts_all E 0 rows then users w ++ added else users w) as Husers.
  { unfold commit, rollback. rewrite Hab.
    destruct (legacy_accepts_all E 0 rows); simpl; [done|done]. }
  assert (csv_uploads (commit
            {| users := users w; csv_uploads := csv_uploads w;
               next_upload_id := next_upload_id w; txns := txns w;
               calls := calls w ++ [CGetObject bucket (unquote_plus quoted)] |} t')
          = csv_uploads w) as Huploads.
  { unfold commit, rollback. destruct (aborted t'); simpl; done. }
  assert (legacy_accepts_all E 0 rows = true -> ins = length added) as Hins.
  { intros Hacc. rewrite Hacc in Hab. simpl in Hab. specialize (Hlen Hab). lia. }
  assert (NoDup (emails (users w)) -> NoDup (emails (users w ++ added))) as Hnd'.
  { intros H. rewrite <- Hu. by apply Hnd. }
  destruct (N8N_WEBHOOK_URL E) as [url|]; simpl.
  - destruct (nonempty url); simpl.
    + destruct (requests_post E url); simpl; split_and!; try done; lia.
    + split_and!; try done; lia.
  - split_and!; try done; lia.
Qed.

(** X12: [lambda_handler] accounts for every data row of a payload that it
    could fetch and read: it answers 200 with the unquoted key, and
    [users_inserted + users_skipped] is the number of rows. *)
Theorem lambda_handler_counts_every_row (bucket quoted csv_content : string)
    (rest : Event) (rows : list Row) (w : World) :
  get_object E bucket (unquote_plus quoted) = Return csv_content ->
  DictReader csv_content = Return rows ->
  exists ins sk : nat,
    (lambda_handler E ((bucket, quoted) :: rest) w).1
    = Return {| legacy_statusCode := 200;
                legacy_body := Inserted ins sk (unquote_plus quoted) |} /\
    (ins + sk = length rows)%nat.
Proof.
  intros Hg Hd.
  destruct (lambda_handler_spec bucket quoted csv_content rest rows w Hg Hd)
    as (ins & sk & added & Hres & Hsum & _).
  eauto.
Qed.

(** X13: [lambda_handler] only appends to [users]: the rows that were
    there are left as they were and in place, the emails stay distinct, and
    [csv_uploads] is not touched.  When the store accepts every statement
    the appended rows are as many as [users_inserted]; when it refuses one,
    nothing is appended, whatever [users_inserted] says. *)
Theorem lambda_handler_only_appends (bucket quoted csv_content : string)
    (rest : Event) (rows : list Row) (w : World) :
  get_object E bucket (unquote_plus quoted) = Return csv_content ->
  DictReader csv_content = Return rows ->
  exists (ins sk : nat) (added : list UserRow),
    (lambda_handler E ((bucket, quoted) :: rest) w).1
    = Return {| legacy_statusCode := 200;
                legacy_body := Inserted ins sk (unquote_plus quoted) |} /\
    users (lambda_handler E ((bucket, quoted) :: rest) w).2 = users w ++ added /\
    (NoDup (emails (users w)) ->
     NoDup (emails (users (lambda_handler E ((bucket, quoted) :: rest) w).2))) /\
    (legacy_accepts_all E 0 rows = true -> length added = ins) /\
    (legacy_accepts_all E 0 rows = false -> added = []) /\
    csv_uploads (lambda_handler E ((bucket, quoted) :: rest) w).2 = csv_uploads w.
Proof.
  intros Hg Hd.
  destruct (lambda_handler_spec bucket quoted csv_content rest rows w Hg Hd)
    as (ins & sk & added & Hres & Hsum & Hu & Hins & Hnd & Hup).
  destruct (legacy_accepts_all E 0 rows) eqn:Hacc.
  - exists ins, sk, added. rewrite Hu. split_and!; try done.
    intros _. symmetry. by apply Hins.
  - exists ins, sk, []. rewrite Hu, app_nil_r. split_and!; done.
Qed.

End SecondWriter.

(** *** Upload URLs *)

Section UploadUrls.
Context `{B : Builtins}.

Variable lower : string -> string.
Variable G : Gateway.

(** X14: [get_upload_url.handler] answers 400, 200 or 500.  It answers 400
    exactly when the lower-cased file name does not end in [.csv], and
    then asks nothing of the object store, whether a bucket is configured
    or not; it answers 200 exactly when the name ends in [.csv],
    [CSV_BUCKET] is set and the object store signs the request, and never
    makes more than one request. *)
Theorem upload_url_status (q : option (gmap string string)) :
  let resp := (get_upload_url lower G q).1 in
  let requests := (get_upload_url lower G q).2 in
  (upload_statusCode resp = 400 \/ upload_statusCode resp = 200 \/
   upload_statusCode resp = 500) /\
  (upload_statusCode resp = 400 <->
   ends_with ".csv" (lower (requested_filename q)) = false) /\
  (upload_statusCode resp = 400 -> requests = [] /\ upload_body resp = OnlyCsv) /\
  (upload_statusCode resp = 200 <->
   ends_with ".csv" (lower (requested_filename q)) = true /\
   exists bucket request post,
     environ G !! "CSV_BUCKET" = Some bucket /\
     requests = [request] /\
     generate_presigned_post G request = Return post) /\
  (length requests <= 1)%nat.
Proof.
  cbv zeta. unfold get_upload_url, requested_filename, environ_item.
  destruct (ends_with ".csv" (lower _)) eqn:Hext; simpl.
  - destruct (environ G !! "CSV_BUCKET") as [bucket|] eqn:Hb; simpl.
    + destruct (generate_presigned_post G _) as [post|e] eqn:Hp; simpl.
      * split_and!; try done; try lia; try (by right; left).
        all: split; [|done]. all: intros _; split; [done|]; by eexists _, _, _.
      * split_and!; try done; try lia; try (by right; right).
        all: split; [done|].
        all: intros (_ & ? & ? & ? & _ & [= <-] & Hp'); congruence.
    + split_and!; try done; try lia; try (by right; right).
      all: split; [done|]. all: by intros (_ & ? & ? & ? & ? & _).
  - split_and!; try done; try lia; try (by left).
    all: split; [done|]. all: by intros (? & _).
Qed.

(** X15: when [get_upload_url.handler] answers 200, the key that it
    returns and asks the object store to sign is
    ["uploads/<timestamp>-<id>-<filename>"]: it starts with ["uploads/"],
    ends with the requested file name, and its id is at most eight
    characters of the UUID.  The request is for the configured bucket,
    for uploads of 1 to 10485760 bytes of the requested content type, and
    is valid for 3600 seconds, as the answer says. *)
Theorem upload_url_key (q : option (gmap string string))
    (url : string) (fields : list (string * string)) (key bucket : string)
    (expires : Z) :
  upload_body (get_upload_url lower G q).1 = UploadUrl url fields key bucket expires ->
  key = upload_key (utcnow G) (str_take 8 (uuid4 G)) (requested_filename q) /\
  is_prefix "uploads/" key = true /\
  ends_with (requested_filename q) key = true /\
  ends_with ".csv" (lower (requested_filename q)) = true /\
  (String.length (str_take 8 (uuid4 G)) <= 8)%nat /\
  environ G !! "CSV_BUCKET" = Some bucket /\
  expires = 3600 /\
  (get_upload_url lower G q).2
  = [{| pr_bucket := bucket;
        pr_key := key;
        pr_field_content_type := default "text/csv" (default ∅ q !! "content_type");
        pr_condition_content_type := default "text/csv" (default ∅ q !! "content_type");
        pr_content_length_range := (1, 10485760);
        pr_expires_in := 3600 |}].
Proof.
  unfold get_upload_url, requested_filename, environ_item.
  destruct (ends_with ".csv" (lower _)) eqn:Hext; cbn [negb fst snd upload_body]; [|done].
  destruct (environ G !! "CSV_BUCKET") as [b|] eqn:Hb; cbn [fst snd upload_body]; [|done].
  destruct (generate_presigned_post G _) as [post|e] eqn:Hp; cbn [fst snd upload_body]; [|done].
  intros [= <- <- <- <- <-].
  split_and!; try done.
  - unfold upload_key. rewrite !append_assoc. apply ends_with_app.
  - apply str_take_length.
Qed.

End UploadUrls.

(** *** From the upload URL to the batch *)

Section UploadThenProcess.
Context `{B : Builtins}.

(** X16: a key that [get_upload_url.handler] has issued, processed by
    [handler] of [csv_processor.py], is recorded as a batch with that key
    and with the file name ["<timestamp>-<id>-<filename>"], when the
    requested file name has no ['/'] (the timestamp and the UUID have
    none). *)
Theorem issued_key_is_recorded_under_its_name (lower : string -> string)
    (G : Gateway) (q : option (gmap string string)) (E : Env) (w : World)
    (rest : Event) (url : string) (fields : list (string * string))
    (key bucket : string) (expires : Z) :
  upload_body (get_upload_url lower G q).1 = UploadUrl url fields key bucket expires ->
  no_slash (utcnow G) = true ->
  no_slash (uuid4 G) = true ->
  no_slash (requested_filename q) = true ->
  ids_below w ->
  exists up,
    csv_uploads (handler E ((bucket, key) :: rest) w).2 = csv_uploads w ++ [up] /\
    s3_key up = key /\
    file_name up
    = utcnow G +:+ "-" +:+ str_take 8 (uuid4 G) +:+ "-" +:+ requested_filename q.
Proof.
  intros Hbody Ht Hu Hf Hbelow.
  assert (key = upload_key (utcnow G) (str_take 8 (uuid4 G)) (requested_filename q)) as Hkey.
  { revert Hbody. unfold get_upload_url, requested_filename, environ_item.
    destruct (ends_with ".csv" (lower _)); cbn [negb fst snd upload_body]; [|done].
    destruct (environ G !! "CSV_BUCKET"); cbn [fst snd upload_body]; [|done].
    destruct (generate_presigned_post G _); cbn [fst snd upload_body]; [|done].
    by intros [= _ _ <- _ _]. }
  destruct (handler_adds_one_batch E bucket key rest w Hbelow)
    as (up & Hup & _ & Hname & Hk & _).
  exists up. split_and!; try done.
  rewrite Hname, Hkey. apply basename_upload_key; [done| |done].
  by apply no_slash_take.
Qed.

End UploadThenProcess.

(** *** Reading the newest users *)

Section NewestUsers.
Context `{B : Builtins}.
Variable E : Env.
Variable ordered : list UserRow -> list UserRow.

Lemma not_older_transitive : Transitive not_older.
Proof. unfold not_older. intros x y z. lia. Qed.

Lemma get_newly_added_users_world (limit : option Z) (w : World) :
  users (get_newly_added_users E ordered limit w).2 = users w /\
  csv_uploads (get_newly_added_users E ordered limit w).2 = csv_uploads w.
Proof.
  unfold get_newly_added_users, get_db_cursor. simpl.
  destruct limit as [n|]; [|done].
  destruct (n =? 0); [done|]. by destruct (n <? 0).
Qed.

(** X17: [get_newly_added_users] without a limit, and with the limit [0],
    returns every user: a limit of zero does not mean no rows.  With a
    negative limit the statement is refused and the error is raised.  In
    no case are the tables changed. *)
Theorem get_newly_added_users_without_limit (limit : option Z) (w : World) :
  (forall table, ordered table ≡ₚ table) ->
  (limit = None \/ limit = Some 0 ->
   exists rows,
     (get_newly_added_users E ordered limit w).1 = Return rows /\
     length rows = length (users w) /\
     (forall r, r ∈ users w -> selected r ∈ rows)) /\
  (forall n, limit = Some n -> n < 0 ->
   exists e, (get_newly_added_users E ordered limit w).1 = Raise e) /\
  users (get_newly_added_users E ordered limit w).2 = users w /\
  csv_uploads (get_newly_added_users E ordered limit w).2 = csv_uploads w.
Proof.
  intros Hperm. split_and!; try apply get_newly_added_users_world.
  - intros Hl. exists (map selected (ordered (users w))).
    split_and!.
    + unfold get_newly_added_users, get_db_cursor. simpl.
      by destruct Hl as [-> | ->].
    + by rewrite length_map, Hperm.
    + intros r Hr. apply list_elem_of_fmap. exists r. split; [done|].
      by rewrite Hperm.
  - intros n -> Hn. unfold get_newly_added_users, get_db_cursor. simpl.
    assert ((n =? 0) = false) as -> by (apply Z.eqb_neq; lia).
    assert ((n <? 0) = true) as -> by (apply Z.ltb_lt; lia).
    by eexists.
Qed.

(** X18: with a positive limit [n], [get_newly_added_users] returns the
    first [n] rows of the store's order by creation time, all of them when
    there are fewer: [min n (number of users)] rows, and no user that is
    left out was created later than a user that is returned. *)
Theorem get_newly_added_users_with_limit (n : Z) (w : World) :
  (forall table, ordered table ≡ₚ table) ->
  (forall table, Sorted not_older (ordered table)) ->
  0 < n ->
  exists kept left_out,
    ordered (users w) = kept ++ left_out /\
    (get_newly_added_users E ordered (Some n) w).1 = Return (map selected kept) /\
    length kept = Nat.min (Z.to_nat n) (length (users w)) /\
    (forall r r', r ∈ kept -> r' ∈ left_out -> created_at r' <= created_at r).
Proof.
  intros Hperm Hsorted Hn.
  exists (take (Z.to_nat n) (ordered (users w))), (drop (Z.to_nat n) (ordered (users w))).
  split_and!.
  - by rewrite take_drop.
  - unfold get_newly_added_users, get_db_cursor. simpl.
    assert ((n =? 0) = false) as -> by (apply Z.eqb_neq; lia).
    assert ((n <? 0) = false) as -> by (apply Z.ltb_ge; lia).
    done.
  - by rewrite length_take, Hperm.
  - intros r r' Hr Hr'. pose proof not_older_transitive as Htrans.
    pose proof (Sorted_StronglySorted not_older _ (Hsorted (users w))) as Hss.
    rewrite <- (take_drop (Z.to_nat n) (ordered (users w))) in Hss.
    by apply (StronglySorted_app_1_elem_of not_older _ _ r r' Hss).
Qed.

End NewestUsers.

(** *** The connection settings *)

Section Connections.
Context {Conn : Type}.
Variable connect : ConnectArgs -> result Conn.

(** X19: [get_db_connection] reaches [psycopg2.connect] only when
    [DB_HOST], [DB_NAME], [DB_USER] and [DB_PASSWORD] are all set, and then
    with these, a 10 second timeout and the port [DB_PORT], or ["5432"]
    when [DB_PORT] is not set; otherwise it raises a [KeyError] for the
    first of the four, in this order, that is not set. *)
Theorem get_db_connection_needs_its_settings (settings : gmap string string) :
  (forall conn,
     get_db_connection settings connect = Configured conn <->
     exists host database user password,
       settings !! "DB_HOST" = Some host /\
       settings !! "DB_NAME" = Some database /\
       settings !! "DB_USER" = Some user /\
       settings !! "DB_PASSWORD" = Some password /\
       connect {| pg_host := host;
                  pg_port := default "5432" (settings !! "DB_PORT");
                  pg_database := database;
                  pg_user := user;
                  pg_password := password;
                  pg_connect_timeout := 10 |} = Return conn) /\
  (forall key,
     get_db_connection settings connect = KeyError key <->
     exists before,
       before ++ [key] `prefix_of` ["DB_HOST"; "DB_NAME"; "DB_USER"; "DB_PASSWORD"] /\
       Forall (fun k => is_Some (settings !! k)) before /\
       settings !! key = None).
Proof.
  unfold get_db_connection, environ_item.
  destruct (settings !! "DB_HOST") as [host|] eqn:Hh.
  2:{ split.
      - intros conn. split; [done|]. intros (? & ? & ? & ? & ? & _). congruence.
      - intros key. split.
        + intros [= <-]. exists []. split_and!; [|done|done].
          by exists ["DB_NAME"; "DB_USER"; "DB_PASSWORD"].
        + intros (before & [more Hpre] & Hall & Hnone).
          destruct before as [|k before]; simpl in Hpre.
          * by injection Hpre as <- _.
          * injection Hpre as <- _. apply Forall_cons in Hall as [[? Hsome] _].
            congruence. }
  destruct (settings !! "DB_NAME") as [database|] eqn:Hd.
  2:{ split.
      - intros conn. split; [done|]. intros (? & ? & ? & ? & ? & ? & _). congruence.
      - intros key. split.
        + intros [= <-]. exists ["DB_HOST"]. split_and!; [| |done].
          * by exists ["DB_USER"; "DB_PASSWORD"].
          * by repeat constructor.
        + intros (before & [more Hpre] & Hall & Hnone).
          destruct before as [|k1 [|k2 before]]; simpl in Hpre.
          * injection Hpre as <- _. congruence.
          * by injection Hpre as _ <- _.
          * injection Hpre as _ <- _.
            apply Forall_cons in Hall as [_ Hall].
            apply Forall_cons in Hall as [[? Hsome] _]. congruence. }
  destruct (settings !! "DB_USER") as [user|] eqn:Hu.
  2:{ split.
      - intros conn. split; [done|]. intros (? & ? & ? & ? & ? & ? & ? & _). congruence.
      - intros key. split.
        + intros [= <-]. exists ["DB_HOST"; "DB_NAME"]. split_and!; [| |done].
          * by exists ["DB_PASSWORD"].
          * by repeat constructor.
        + intros (before & [more Hpre] & Hall & Hnone).
          destruct before as [|k1 [|k2 [|k3 before]]]; simpl in Hpre.
          * injection Hpre as <- _. congruence.
          * injection Hpre as _ <- _. congruence.
          * by injection Hpre as _ _ <- _.
          * injection Hpre as _ _ <- _.
            do 2 apply Forall_cons in Hall as [_ Hall].
            apply Forall_cons in Hall as [[? Hsome] _]. congruence. }
  destruct (settings !! "DB_PASSWORD") as [password|] eqn:Hp.
  2:{ split.
      - intros conn. split; [done|]. intros (? & ? & ? & ? & ? & ? & ? & ? & _). congruence.
      - intros key. split.
        + intros [= <-]. exists ["DB_HOST"; "DB_NAME"; "DB_USER"]. split_and!; [| |done].
          * by exists [].
          * by repeat constructor.
        + intros (before & [more Hpre] & Hall & Hnone).
          destruct before as [|k1 [|k2 [|k3 [|k4 before]]]]; simpl in Hpre.
          * injection Hpre as <- _. congruence.
          * injection Hpre as _ <- _. congruence.
          * injection Hpre as _ _ <- _. congruence.
          * by injection Hpre as _ _ _ <- _.
          * injection Hpre as _ _ _ _ Hpre. by destruct before. }
  split.
  - intros conn. split.
    + destruct (connect _) as [c|e] eqn:Hc; [|done].
      intros [= <-]. by exists host, database, user, password.
    + intros (? & ? & ? & ? & [= <-] & [= <-] & [= <-] & [= <-] & ->). done.
  - intros key. split; [by destruct (connect _)|].
    intros (before & [more Hpre] & Hall & Hnone).
    destruct before as [|k1 [|k2 [|k3 [|k4 before]]]]; simpl in Hpre.
    + injection Hpre as <- _. congruence.
    + injection Hpre as _ <- _. congruence.
    + injection Hpre as _ _ <- _. congruence.
    + injection Hpre as _ _ _ <- _. congruence.
    + injection Hpre as _ _ _ _ Hpre. by destruct before.
Qed.

End Connections.

(** *** More runs of the sample deployment *)

Section MoreRuns.
#[local] Existing Instance Plain.builtins.
Import Sample Desk.

Lemma not_older_total : Total not_older.
Proof. unfold not_older. intros x y. lia. Qed.

Lemma handler_keeps_users_valid_witness :
  Forall row_valid (users with_alice) /\
  Forall row_valid (users (handler env (event_of "uploads/applicants.csv") with_alice).2).
Proof.
  assert (Forall row_valid (users with_alice)) as Hvalid.
  { constructor; [|constructor]. unfold row_valid. simpl.
    split_and!; (reflexivity || lia). }
  split; [exact Hvalid|].
  exact (handler_keeps_users_valid env (event_of "uploads/applicants.csv")
           with_alice Hvalid).
Defined.

Lemma one_error_message_per_failed_record_witness :
  process_csv_file env "loans" "uploads/applicants.csv" start
  = (Return (4, 2, 2, ["Row 2: Invalid data"; "Row 4: Invalid data"])%nat,
     applicants_scanned) /\
  length ["Row 2: Invalid data"; "Row 4: Invalid data"] = 2%nat /\
  (error_summary ["Row 2: Invalid data"; "Row 4: Invalid data"] = None <-> 2%nat = 0%nat).
Proof.
  assert (process_csv_file env "loans" "uploads/applicants.csv" start
          = (Return (4, 2, 2, ["Row 2: Invalid data"; "Row 4: Invalid data"])%nat,
             applicants_scanned)) as Hrun by reflexivity.
  split; [exact Hrun|].
  exact (one_error_message_per_failed_record env "loans" "uploads/applicants.csv"
           start applicants_scanned _ _ _ _ Hrun).
Defined.

Lemma parse_failure_is_recorded_and_propagated_witness :
  get_object env_malformed "loans" "uploads/x.csv" = Return malformed /\
  DictReader (Builtins := reader_refuses_stray_cr) malformed
  = Raise (ExternalError new_line_in_field) /\
  (handler env_malformed (event_of "uploads/x.csv") start_malformed).1
  = Return {| statusCode := 500; body := Failed new_line_in_field |} /\
  recorded (handler env_malformed (event_of "uploads/x.csv") start_malformed).2 1
    (fun up => status up = "failed" /\ error_message up = Some new_line_in_field) /\
  users (handler env_malformed (event_of "uploads/x.csv") start_malformed).2 = [] /\
  filter (fun c => is_upsert c = true)
    (new_calls start_malformed
       (handler env_malformed (event_of "uploads/x.csv") start_malformed).2) = [].
Proof.
  assert (get_object env_malformed "loans" "uploads/x.csv" = Return malformed) as Hg
    by reflexivity.
  assert (DictReader (Builtins := reader_refuses_stray_cr) malformed
          = Raise (ExternalError new_line_in_field)) as Hd by reflexivity.
  destruct (parse_failure_is_recorded_and_propagated env_malformed "loans"
              "uploads/x.csv" [] start_malformed malformed _ Hg Hd)
    as (Hres & Hrec & Hu & _ & Hc).
  split_and!; assumption.
Defined.

Lemma handler_answers_200_or_500_witness :
  (Outage.handler env never_reached (event_of "uploads/applicants.csv") start).1
  = Return {| statusCode := 500;
              body := Failed "could not connect to server: Connection refused" |} /\
  (Outage.handler env lost_after_first (event_of "uploads/applicants.csv") start).1
  = Return {| statusCode := 500;
              body := Failed "could not connect to server: Connection refused" |} /\
  (handler env (event_of "uploads/applicants.csv") start).1
  = Return {| statusCode := 200; body := Processed 1 4 2 2 |} /\
  exists resp,
    (Outage.handler env lost_after_first (event_of "uploads/applicants.csv") start).1
    = Return resp /\
    (statusCode resp = 200 /\ (exists id t p f, body resp = Processed id t p f)
     \/ statusCode resp = 500 /\ (exists error, body resp = Failed error)).
Proof.
  split_and!; [reflexivity|reflexivity|reflexivity|].
  destruct (handler_answers_200_or_500 env lost_after_first
              (event_of "uploads/applicants.csv") start)
    as ((resp & Hres & Hstatus & _) & _).
  exists resp. split; assumption.
Defined.

Lemma handler_keeps_earlier_batches_witness :
  ids_below with_batch /\
  csv_uploads (Outage.handler env lost_after_first
                 (event_of "uploads/applicants.csv") with_batch).2
  = [earlier_batch;
     pending_upload 2 1000 "applicants.csv" "uploads/applicants.csv"] /\
  csv_uploads (Outage.handler env never_reached
                 (event_of "uploads/applicants.csv") with_batch).2
  = [earlier_batch] /\
  (exists added : list UploadRow,
     csv_uploads (Outage.handler env lost_after_first
                    (event_of "uploads/applicants.csv") with_batch).2
     = csv_uploads with_batch ++ added /\
     (length added <= 1)%nat) /\
  ids_below (Outage.handler env lost_after_first
               (event_of "uploads/applicants.csv") with_batch).2 /\
  (exists up : UploadRow,
     csv_uploads (handler env (event_of "uploads/applicants.csv") with_batch).2
     = [earlier_batch; up] /\
     upload_id up = 2 /\
     is_terminal (status up) = true).
Proof.
  assert (ids_below with_batch) as Hbelow
    by (constructor; [simpl; lia|constructor]).
  destruct (handler_keeps_earlier_batches env lost_after_first "loans"
              "uploads/applicants.csv" [] with_batch Hbelow)
    as ((added & Hup & Hlen & _) & Hb & (up & Hone & (Hid & _) & Hst)).
  split_and!; [exact Hbelow|reflexivity|reflexivity| |exact Hb|].
  - exists added. split; assumption.
  - exists up. split_and!; assumption.
Defined.

Lemma updating_an_unknown_batch_changes_nothing_witness :
  Forall (fun up => upload_id up <> 5) (csv_uploads with_batch) /\
  csv_uploads (update_csv_upload_status env 5 "completed"
                 (Some 1%nat) (Some 1%nat) (Some 0%nat) None with_batch).2
  = [earlier_batch] /\
  csv_uploads (Outage.update_csv_upload_status env never_reached 5 "completed"
                 (Some 1%nat) (Some 1%nat) (Some 0%nat) None with_batch).2
  = [earlier_batch] /\
  csv_uploads (update_csv_upload_status env 1 "failed"
                 None None None (Some "late") with_batch).2
  <> [earlier_batch].
Proof.
  assert (Forall (fun up => upload_id up <> 5) (csv_uploads with_batch)) as H
    by (constructor; [simpl; lia|constructor]).
  destruct (updating_an_unknown_batch_changes_nothing env never_reached 5 "completed"
              (Some 1%nat) (Some 1%nat) (Some 0%nat) None with_batch H)
    as (Hout & Hup & _).
  split_and!; [exact H|exact Hup|exact Hout|discriminate].
Defined.

Lemma refused_statement_undoes_the_batch_witness :
  accepts_all env 0 [alice; bob; carol] = false /\
  users (insert_users_batch env [alice; bob; carol] start).2 = [] /\
  exists errs,
    (insert_users_batch env [alice; bob; carol] start).1
    = Return (1%nat, 2%nat, errs).
Proof.
  assert (accepts_all env 0 [alice; bob; carol] = false) as Hacc by reflexivity.
  destruct (refused_statement_undoes_the_batch env [alice; bob; carol] start Hacc)
    as (errs & Hres & _ & _ & Hu & _).
  split_and!; [exact Hacc|exact Hu|]. exists errs. exact Hres.
Defined.

Lemma accepted_batch_is_stored_witness :
  accepts_all env 0 [alice; carol] = true /\
  (insert_users_batch env [alice; carol] start).1 = Return (2%nat, 0%nat, []) /\
  exists r last,
    find_email "c@x.org" (users (insert_users_batch env [alice; carol] start).2) = Some r /\
    last_with "c@x.org" [alice; carol] = Some last /\
    holds r last.
Proof.
  assert (accepts_all env 0 [alice; carol] = true) as Hacc by reflexivity.
  destruct (accepted_batch_is_stored env [alice; carol] start Hacc) as [Hres Hall].
  assert (carol ∈ [alice; carol]) as Hin
    by (apply list_elem_of_lookup_2 with 1%nat; reflexivity).
  destruct (Hall carol Hin) as (r & last & Hf & Hl & Hh & _).
  split_and!; [exact Hacc|exact Hres|]. exists r, last. split_and!; assumption.
Defined.

Lemma insert_users_batch_keeps_every_user_witness :
  users with_alice !! 0%nat = Some stored_alice /\
  exists r',
    users (insert_users_batch env [promoted_alice; bob] with_alice).2 !! 0%nat = Some r' /\
    same_identity stored_alice r'.
Proof.
  assert (users with_alice !! 0%nat = Some stored_alice) as Hi by reflexivity.
  split; [exact Hi|].
  destruct (insert_users_batch_keeps_every_user env [promoted_alice; bob]
              with_alice 0 stored_alice Hi) as [Hkeep _].
  exact Hkeep.
Defined.

Lemma lambda_handler_counts_every_row_witness :
  get_object env "loans" (unquote_plus "uploads/raise.csv") = Return raise_of_a /\
  DictReader raise_of_a = Return raise_rows /\
  exists ins sk : nat,
    (lambda_handler env (event_of "uploads/raise.csv") with_alice).1
    = Return {| legacy_statusCode := 200;
                legacy_body := Inserted ins sk (unquote_plus "uploads/raise.csv") |} /\
    (ins + sk = length raise_rows)%nat.
Proof.
  assert (get_object env "loans" (unquote_plus "uploads/raise.csv") = Return raise_of_a)
    as Hg by reflexivity.
  assert (DictReader raise_of_a = Return raise_rows) as Hd by reflexivity.
  split_and!; [exact Hg|exact Hd|].
  exact (lambda_handler_counts_every_row env "loans" "uploads/raise.csv" raise_of_a
           [] raise_rows with_alice Hg Hd).
Defined.

Lemma lambda_handler_only_appends_witness :
  get_object env "loans" (unquote_plus "uploads/raise.csv") = Return raise_of_a /\
  DictReader raise_of_a = Return raise_rows /\
  exists added : list UserRow,
    users (lambda_handler env (event_of "uploads/raise.csv") with_alice).2
    = users with_alice ++ added.
Proof.
  assert (get_object env "loans" (unquote_plus "uploads/raise.csv") = Return raise_of_a)
    as Hg by reflexivity.
  assert (DictReader raise_of_a = Return raise_rows) as Hd by reflexivity.
  split_and!; [exact Hg|exact Hd|].
  destruct (lambda_handler_only_appends env "loans" "uploads/raise.csv" raise_of_a
              [] raise_rows with_alice Hg Hd) as (ins & sk & added & _ & Hu & _).
  exists added. exact Hu.
Defined.

Lemma upload_url_key_witness :
  upload_body (get_upload_url lower gateway (query "Applicants.CSV")).1
  = UploadUrl "https://loans.s3.amazonaws.com/"
      [("key", "uploads/20240131-235959-3f2b8c1e-Applicants.CSV");
       ("Content-Type", "text/csv")]
      "uploads/20240131-235959-3f2b8c1e-Applicants.CSV" "loans" 3600 /\
  is_prefix "uploads/" "uploads/20240131-235959-3f2b8c1e-Applicants.CSV" = true /\
  ends_with (requested_filename (query "Applicants.CSV"))
    "uploads/20240131-235959-3f2b8c1e-Applicants.CSV" = true.
Proof.
  assert (upload_body (get_upload_url lower gateway (query "Applicants.CSV")).1
          = UploadUrl "https://loans.s3.amazonaws.com/"
              [("key", "uploads/20240131-235959-3f2b8c1e-Applicants.CSV");
               ("Content-Type", "text/csv")]
              "uploads/20240131-235959-3f2b8c1e-Applicants.CSV" "loans" 3600) as Hbody
    by reflexivity.
  destruct (upload_url_key lower gateway (query "Applicants.CSV") _ _ _ _ _ Hbody)
    as (_ & Hpre & Hend & _).
  split_and!; assumption.
Defined.

Lemma issued_key_is_recorded_under_its_name_witness :
  upload_body (get_upload_url lower gateway (query "Applicants.CSV")).1
  = UploadUrl "https://loans.s3.amazonaws.com/"
      [("key", "uploads/20240131-235959-3f2b8c1e-Applicants.CSV");
       ("Content-Type", "text/csv")]
      "uploads/20240131-235959-3f2b8c1e-Applicants.CSV" "loans" 3600 /\
  no_slash (utcnow gateway) = true /\
  no_slash (uuid4 gateway) = true /\
  no_slash (requested_filename (query "Applicants.CSV")) = true /\
  ids_below start /\
  exists up,
    csv_uploads (handler env
                   [("loans", "uploads/20240131-235959-3f2b8c1e-Applicants.CSV")]
                   start).2 = [up] /\
    file_name up = "20240131-235959-3f2b8c1e-Applicants.CSV".
Proof.
  assert (upload_body (get_upload_url lower gateway (query "Applicants.CSV")).1
          = UploadUrl "https://loans.s3.amazonaws.com/"
              [("key", "uploads/20240131-235959-3f2b8c1e-Applicants.CSV");
               ("Content-Type", "text/csv")]
              "uploads/20240131-235959-3f2b8c1e-Applicants.CSV" "loans" 3600) as Hbody
    by reflexivity.
  assert (no_slash (utcnow gateway) = true) as Ht by reflexivity.
  assert (no_slash (uuid4 gateway) = true) as Hu by reflexivity.
  assert (no_slash (requested_filename (query "Applicants.CSV")) = true) as Hf
    by reflexivity.
  assert (ids_below start) as Hbelow by constructor.
  destruct (issued_key_is_recorded_under_its_name lower gateway
              (query "Applicants.CSV") env start [] _ _ _ _ _ Hbody Ht Hu Hf Hbelow)
    as (up & Hup & _ & Hname).
  split_and!; try assumption. exists up. split; [exact Hup|exact Hname].
Defined.

Lemma get_newly_added_users_without_limit_witness :
  (forall table, newest_first table ≡ₚ table) /\
  exists rows,
    (get_newly_added_users env newest_first (Some 0) two_users).1 = Return rows /\
    length rows = 2%nat.
Proof.
  assert (forall table, newest_first table ≡ₚ table) as Hperm
    by (intros table; apply merge_sort_Permutation).
  split; [exact Hperm|].
  destruct (get_newly_added_users_without_limit env newest_first (Some 0) two_users Hperm)
    as (Hall & _).
  destruct (Hall (or_intror eq_refl)) as (rows & Hres & Hlen & _).
  exists rows. split; [exact Hres|exact Hlen].
Defined.

Lemma get_newly_added_users_with_limit_witness :
  (forall table, newest_first table ≡ₚ table) /\
  (forall table, Sorted not_older (newest_first table)) /\
  0 < 1 /\
  exists kept left_out : list UserRow,
    (get_newly_added_users env newest_first (Some 1) two_users).1
    = Return (map selected kept) /\
    length kept = 1%nat /\
    (forall r r', r ∈ kept -> r' ∈ left_out -> created_at r' <= created_at r).
Proof.
  assert (forall table, newest_first table ≡ₚ table) as Hperm
    by (intros table; apply merge_sort_Permutation).
  assert (forall table, Sorted not_older (newest_first table)) as Hsorted
    by (intros table; pose proof not_older_total as Htotal;
        apply (Sorted_merge_sort not_older)).
  assert (0 < 1) as Hn by lia.
  destruct (get_newly_added_users_with_limit env newest_first 1 two_users
              Hperm Hsorted Hn) as (kept & left_out & _ & Hres & Hlen & Hnewer).
  split_and!; try assumption. exists kept, left_out. split_and!; assumption.
Defined.

End MoreRuns.
